(** * LaundryIQ data logger: link session, stream parser, sampling pipeline

    A shallow embedding of [laundryiq_logger.py].  The Python run-time
    services the program relies on (UTF-8 decoding, [str] methods, the [re]
    patterns it compiles, [float], [list.sort], [collections.deque]) are
    modelled in [Module Py]; the three classes of the program follow, each in
    a module of its name. *)

From Stdlib Require Import ZArith NArith List Ascii String Floats Uint63.
From Stdlib Require Import Sorting.Sorted Sorting.Permutation.
From stdpp Require Import base option list gmap strings.
Import ListNotations.

#[local] Open Scope N_scope.

(* ===================================================================== *)
(** * Python run-time model                                               *)
(* ===================================================================== *)

Module Py.

(** ** Exceptions and results *)

Inductive exn : Type :=
| UnicodeDecodeError
| ValueError
| IndexError
| TypeError
| OSError
| KeyError (key : string).

Inductive result (A : Type) : Type :=
| Ok (a : A)
| Raise (e : exn).
Arguments Ok {A} a.
Arguments Raise {A} e.

Definition bind {A B} (r : result A) (k : A -> result B) : result B :=
  match r with
  | Ok a => k a
  | Raise e => Raise e
  end.

Definition rmap {A B} (f : A -> B) (r : result A) : result B :=
  bind r (fun a => Ok (f a)).

(** ** Text

    A Python [str] is a sequence of Unicode code points; a [bytes] object is
    a sequence of octets. *)

Definition codepoint := N.
Definition text := list codepoint.
Definition bytes := list Byte.byte.

Definition text_of_string (s : string) : text :=
  map N_of_ascii (list_ascii_of_string s).

Definition bytes_of_string (s : string) : bytes := list_byte_of_string s.

Definition LF : codepoint := 10.

(** The line feed as a one-character string. *)
Definition newline : string := String "010" EmptyString.

Definition REPLACEMENT : codepoint := 0xFFFD.

(** ** [bytes.decode("utf-8", errors=...)]

    The decoder of CPython: an ill-formed sequence is reported at its
    maximal well-formed prefix (one, two or three octets); a well-formed
    prefix cut off by the end of the data is reported whole.  With
    [errors="strict"] the report is a [UnicodeDecodeError]; with
    [errors="replace"] it is one U+FFFD and decoding resumes after the
    reported octets. *)

Inductive error_mode : Type := Strict | Replace.

Definition is_continuation (c : N) : bool := (0x80 <=? c) && (c <? 0xC0).

(** Second octet of a three-octet sequence: E0 excludes overlong forms,
    ED excludes the surrogates. *)
Definition second_of_3 (c0 c1 : N) : bool :=
  is_continuation c1
  && negb ((c0 =? 0xE0) && (c1 <? 0xA0))
  && negb ((c0 =? 0xED) && (0xA0 <=? c1)).

(** Second octet of a four-octet sequence: F0 excludes overlong forms,
    F4 excludes code points above U+10FFFF. *)
Definition second_of_4 (c0 c1 : N) : bool :=
  is_continuation c1
  && negb ((c0 =? 0xF0) && (c1 <? 0x90))
  && negb ((c0 =? 0xF4) && (0x90 <=? c1)).

Definition low6 (c : N) : N := N.land c 0x3F.

Definition cp2 (c0 c1 : N) : codepoint :=
  N.lor (N.shiftl (N.land c0 0x1F) 6) (low6 c1).
Definition cp3 (c0 c1 c2 : N) : codepoint :=
  N.lor (N.shiftl (N.land c0 0x0F) 12) (N.lor (N.shiftl (low6 c1) 6) (low6 c2)).
Definition cp4 (c0 c1 c2 c3 : N) : codepoint :=
  N.lor (N.shiftl (N.land c0 0x07) 18)
        (N.lor (N.shiftl (low6 c1) 12) (N.lor (N.shiftl (low6 c2) 6) (low6 c3))).

(** What the error handler does with the decoding [k] of the octets after
    the reported ones. *)
Definition on_error (errors : error_mode) (k : result text) : result text :=
  match errors with
  | Strict => Raise UnicodeDecodeError
  | Replace => rmap (cons REPLACEMENT) k
  end.

Fixpoint decode_utf8 (errors : error_mode) (bs : bytes) : result text :=
  match bs with
  | [] => Ok []
  | b0 :: r1 =>
    let c0 := Byte.to_N b0 in
    if c0 <? 0x80 then rmap (cons c0) (decode_utf8 errors r1)
    else if c0 <? 0xC2 then on_error errors (decode_utf8 errors r1)
    else if c0 <? 0xE0 then
      match r1 with
      | [] => on_error errors (Ok [])
      | b1 :: r2 =>
        let c1 := Byte.to_N b1 in
        if is_continuation c1
        then rmap (cons (cp2 c0 c1)) (decode_utf8 errors r2)
        else on_error errors (decode_utf8 errors r1)
      end
    else if c0 <? 0xF0 then
      match r1 with
      | [] => on_error errors (Ok [])
      | b1 :: r2 =>
        let c1 := Byte.to_N b1 in
        if negb (second_of_3 c0 c1) then on_error errors (decode_utf8 errors r1)
        else
          match r2 with
          | [] => on_error errors (Ok [])
          | b2 :: r3 =>
            let c2 := Byte.to_N b2 in
            if is_continuation c2
            then rmap (cons (cp3 c0 c1 c2)) (decode_utf8 errors r3)
            else on_error errors (decode_utf8 errors r2)
          end
      end
    else if c0 <? 0xF5 then
      match r1 with
      | [] => on_error errors (Ok [])
      | b1 :: r2 =>
        let c1 := Byte.to_N b1 in
        if negb (second_of_4 c0 c1) then on_error errors (decode_utf8 errors r1)
        else
          match r2 with
          | [] => on_error errors (Ok [])
          | b2 :: r3 =>
            let c2 := Byte.to_N b2 in
            if negb (is_continuation c2) then on_error errors (decode_utf8 errors r2)
            else
              match r3 with
              | [] => on_error errors (Ok [])
              | b3 :: r4 =>
                let c3 := Byte.to_N b3 in
                if is_continuation c3
                then rmap (cons (cp4 c0 c1 c2 c3)) (decode_utf8 errors r4)
                else on_error errors (decode_utf8 errors r3)
              end
          end
      end
    else on_error errors (decode_utf8 errors r1)
  end.

(** ** Character classes

    [str.isspace], which [str.strip()] and the pattern escape [\s] use, and
    [str.isdecimal], which the escape [\d] and [float] use, as Unicode 14
    has them (the tables of CPython 3.11).  The decimal digits come in runs
    of ten, each run listed by the code point of its zero. *)

Definition space_ranges : list (N * N) :=
  [ (0x09, 0x0D); (0x1C, 0x20); (0x85, 0x85); (0xA0, 0xA0); (0x1680, 0x1680);
    (0x2000, 0x200A); (0x2028, 0x2029); (0x202F, 0x202F); (0x205F, 0x205F);
    (0x3000, 0x3000) ].

Definition is_space (c : codepoint) : bool :=
  existsb (fun r => (fst r <=? c) && (c <=? snd r)) space_ranges.

Definition decimal_zeros : list N :=
  [ 48; 1632; 1776; 1984; 2406; 2534; 2662; 2790; 2918; 3046; 3174; 3302;
    3430; 3558; 3664; 3792; 3872; 4160; 4240; 6112; 6160; 6470; 6608; 6784;
    6800; 6992; 7088; 7232; 7248; 42528; 43216; 43264; 43472; 43504; 43600;
    44016; 65296; 66720; 68912; 69734; 69872; 69942; 70096; 70384; 70736;
    70864; 71248; 71360; 71472; 71904; 72016; 72784; 73040; 73120; 92768;
    92864; 93008; 120782; 120792; 120802; 120812; 120822; 123200; 123632;
    125264; 130032 ].

(** The digit value of a decimal character, [None] for any other. *)
Definition decimal_value (c : codepoint) : option N :=
  match find (fun z => (z <=? c) && (c <? z + 10)) decimal_zeros with
  | Some z => Some (c - z)
  | None => None
  end.

Definition is_decimal (c : codepoint) : bool :=
  match decimal_value c with Some _ => true | None => false end.

(** ** [str] methods *)

(** [s.split("\n")]: the fragments between line feeds; never empty. *)
Fixpoint split_lines (s : text) : list text :=
  match s with
  | [] => [[]]
  | c :: r =>
    if c =? LF then [] :: split_lines r
    else match split_lines r with
         | [] => [[c]]
         | l :: ls => (c :: l) :: ls
         end
  end.

Fixpoint drop_spaces (s : text) : text :=
  match s with
  | [] => []
  | c :: r => if is_space c then drop_spaces r else s
  end.

(** [s.strip()] *)
Definition strip (s : text) : text :=
  rev (drop_spaces (rev (drop_spaces s))).

(** ** Sequence indexing *)

(** [xs[-1]] *)
Definition last_item {A} (xs : list A) : result A :=
  match rev xs with
  | [] => Raise IndexError
  | x :: _ => Ok x
  end.

(** [xs[:-1]] *)
Definition all_but_last {A} (xs : list A) : list A := removelast xs.

(** ** The pattern [TAG[:\s=]+([\d.+-]+)]

    [re.search] with a pattern made of a literal, a greedy repetition of one
    character class and a captured greedy repetition of another.  The matcher
    tries every start position from the left; at a position it takes the
    longest run of separators and gives characters back one at a time until
    the captured class matches at least once. *)

Definition is_sep (c : codepoint) : bool :=
  (c =? 58) || is_space c || (c =? 61).          (* [:\s=] *)

Definition is_num (c : codepoint) : bool :=
  is_decimal c || (c =? 46) || (c =? 43) || (c =? 45).  (* [\d.+-] *)

Fixpoint run (p : codepoint -> bool) (s : text) : text :=
  match s with
  | [] => []
  | c :: r => if p c then c :: run p r else []
  end.

Fixpoint strip_prefix (lit s : text) : option text :=
  match lit, s with
  | [], _ => Some s
  | _ :: _, [] => None
  | a :: lit', c :: s' => if a =? c then strip_prefix lit' s' else None
  end.

(** Separator runs of length [k], [k-1], ..., 1 in turn. *)
Fixpoint give_back (k : nat) (after_tag : text) : option text :=
  match k with
  | O => None
  | S k' =>
    match run is_num (skipn k after_tag) with
    | [] => give_back k' after_tag
    | g => Some g
    end
  end.

(** A match starting exactly at the head of [s]; the result is group 1. *)
Definition match_at (tag s : text) : option text :=
  match strip_prefix tag s with
  | None => None
  | Some after_tag => give_back (length (run is_sep after_tag)) after_tag
  end.

(** [pattern.search(s)], reduced to [match.group(1)]. *)
Fixpoint re_search (tag s : text) : option text :=
  match match_at tag s with
  | Some g => Some g
  | None =>
    match s with
    | [] => None
    | _ :: r => re_search tag r
    end
  end.

(** ** [float(s)] on the strings the patterns capture

    Group 1 holds decimal digits, full stops and signs only.  On such a
    string [float] accepts an optional sign followed by digits with at most
    one full stop and at least one digit, and raises [ValueError] on anything
    else; the value is the binary64 number nearest to the decimal, ties to
    even, infinite on overflow. *)

#[local] Open Scope Z_scope.

Definition pow2_53 : Z := 2 ^ 53.

(** [floor (m / (d * 2^e))] *)
Definition scaled_quotient (m d e : Z) : Z :=
  if 0 <=? e then m / (d * 2 ^ e) else (m * 2 ^ (- e)) / d.

(** The exponent of the unit in the last place of [m / d]: the least
    [e >= -1074] with [m / (d * 2^e) < 2^53]. *)
Definition binade (m d : Z) : Z :=
  let e1 := Z.log2 m - Z.log2 d - 53 in
  let fits e := scaled_quotient m d (Z.max e (-1074)) <? pow2_53 in
  if fits e1 then Z.max e1 (-1074)
  else if fits (e1 + 1) then Z.max (e1 + 1) (-1074)
  else Z.max (e1 + 2) (-1074).

(** [m / 10^k] rounded to binary64. *)
Definition round_decimal (neg : bool) (m : Z) (k : Z) : float :=
  if m =? 0 then (if neg then neg_zero else zero)
  else
    let d := 10 ^ k in
    let e := binade m d in
    let num := if 0 <=? e then m else m * 2 ^ (- e) in
    let den := if 0 <=? e then d * 2 ^ e else d in
    let q := num / den in
    let r := num mod den in
    let q' := if (den <? 2 * r) || ((2 * r =? den) && Z.odd q) then q + 1 else q in
    let v := Z.ldexp (PrimFloat.of_uint63 (Uint63.of_Z q')) e in
    if neg then PrimFloat.opp v else v.

(** Digits read so far: their value and how many there are. *)
Fixpoint read_digits (s : text) (acc : Z) (n : Z) : Z * Z * text :=
  match s with
  | [] => (acc, n, [])
  | c :: r =>
    match decimal_value c with
    | Some v => read_digits r (10 * acc + Z.of_N v) (n + 1)
    | None => (acc, n, s)
    end
  end.

Definition float_of_text (s : text) : result float :=
  let '(neg, body) :=
    match s with
    | 43%N :: r => (false, r)
    | 45%N :: r => (true, r)
    | _ => (false, s)
    end in
  let '(ip, ni, rest) := read_digits body 0 0 in
  let '(m, nf, rest') :=
    match rest with
    | 46%N :: r => read_digits r ip 0
    | _ => (ip, 0, rest)
    end in
  match rest' with
  | _ :: _ => Raise ValueError
  | [] => if ni + nf =? 0 then Raise ValueError else Ok (round_decimal neg m nf)
  end.

#[local] Close Scope Z_scope.

(** Truth value of a float: zero of either sign is false, a NaN is true. *)
Definition float_truthy (x : float) : bool := negb (PrimFloat.eqb x zero).

(** ** [dict]

    A dictionary keeps its keys in insertion order; storing under a key it
    already has replaces the value in place. *)

Definition dict (V : Type) := list (string * V).

Fixpoint setitem {V} (k : string) (v : V) (d : dict V) : dict V :=
  match d with
  | [] => [(k, v)]
  | (k', v') :: r =>
    if String.eqb k k' then (k', v) :: r else (k', v') :: setitem k v r
  end.

Fixpoint lookup_key {V} (k : string) (d : dict V) : option V :=
  match d with
  | [] => None
  | (k', v) :: r => if String.eqb k k' then Some v else lookup_key k r
  end.

(** [d[k]] *)
Definition getitem {V} (k : string) (d : dict V) : result V :=
  match lookup_key k d with
  | Some v => Ok v
  | None => Raise (KeyError k)
  end.

(** [d.items()] *)
Definition items {V} (d : dict V) : list (string * V) := d.

(** ** [collections.deque(maxlen=n)] *)

Record deque (A : Type) : Type := Deque { maxlen : option nat; elems : list A }.
Arguments Deque {A} maxlen elems.
Arguments maxlen {A} d.
Arguments elems {A} d.

(** [d.append(x)]: the element goes to the right end, and a deque that then
    exceeds its bound drops its leftmost element. *)
Definition deque_append {A} (x : A) (d : deque A) : deque A :=
  let grown := elems d ++ [x] in
  match maxlen d with
  | None => Deque None grown
  | Some n => Deque (Some n) (if (n <? length grown)%nat then tl grown else grown)
  end.

(** [d.clear()] *)
Definition deque_clear {A} (d : deque A) : deque A := Deque (maxlen d) [].

(** ** [list.sort(key=...)]

    A stable sort: elements with equal keys keep their order.  [le] is the
    order of the keys. *)

Section Sort.
Context {A K : Type} (le : K -> K -> bool) (key : A -> K).

Fixpoint insert_by (x : A) (l : list A) : list A :=
  match l with
  | [] => [x]
  | y :: r => if le (key x) (key y) then x :: l else y :: insert_by x r
  end.

Fixpoint sort_by (l : list A) : list A :=
  match l with
  | [] => []
  | x :: r => insert_by x (sort_by r)
  end.
End Sort.

End Py.

(* ===================================================================== *)
(** * class DataParser                                                    *)
(* ===================================================================== *)

Module DataParser.
Import Py.

(** Per-channel values, present or [None]. *)
Definition readings := dict (option float).

(** [PATTERNS]: channel key and the tag its pattern starts with; the three
    patterns differ in the tag only. *)
Definition PATTERNS : dict text :=
  [ ("ct_clamp"%string, text_of_string "CT_A");
    ("hall1"%string, text_of_string "HALL1_A");
    ("hall2"%string, text_of_string "HALL2_A") ].

Record t : Type := Parser { _buffer : text }.

(** [__init__] *)
Definition init : t := Parser [].

Definition empty_result : readings :=
  [ ("ct_clamp"%string, None); ("hall1"%string, None); ("hall2"%string, None) ].

(** The body of the inner loop: one pattern on one line.  Only
    [ValueError] is caught. *)
Definition scan_pattern (line : text) (result : readings) (kp : string * text)
  : Py.result readings :=
  let '(key, tag) := kp in
  match re_search tag line with
  | None => Ok result
  | Some group1 =>
    match float_of_text group1 with
    | Ok v => Ok (setitem key (Some v) result)
    | Raise ValueError => Ok result
    | Raise e => Raise e
    end
  end.

Fixpoint scan_patterns (line : text) (result : readings) (ps : list (string * text))
  : Py.result readings :=
  match ps with
  | [] => Ok result
  | kp :: ps' => bind (scan_pattern line result kp) (fun r => scan_patterns line r ps')
  end.

(** The body of the outer loop: one complete line. *)
Definition scan_line (result : readings) (line : text) : Py.result readings :=
  match strip line with
  | [] => Ok result
  | stripped => scan_patterns stripped result (items PATTERNS)
  end.

Fixpoint scan_lines (result : readings) (lines : list text) : Py.result readings :=
  match lines with
  | [] => Ok result
  | line :: rest => bind (scan_line result line) (fun r => scan_lines r rest)
  end.

(** [parse]: the parser after the call, and what the call returns or
    raises. *)
Definition parse (self : t) (data : bytes) : t * Py.result readings :=
  match decode_utf8 Replace data with
  | Raise e => (self, Raise e)
  | Ok decoded =>
    let buffer := _buffer self ++ decoded in
    let lines := split_lines buffer in
    match last_item lines with
    | Raise e => (Parser buffer, Raise e)
    | Ok kept => (Parser kept, scan_lines empty_result (all_but_last lines))
    end
  end.

End DataParser.

(* ===================================================================== *)
(** * class BleWorker                                                     *)
(* ===================================================================== *)

Module BleWorker.
Import Py.

Definition NUS_SERVICE_UUID : string := "6e400001-b5a3-f393-e0a9-e50e24dcca9e".

Record FoundDevice : Type :=
  { name : text; address : string; rssi : option Z }.

(** What goes on the event queue. *)
Inductive event : Type :=
| scan_result (found : list FoundDevice)
| rx (data : bytes)
| status (msg : string)
| connected (up : bool)
| error (msg : string).

(** An exception of the BLE library, as [str(e)] and [repr(e)] show it,
    and whether it is a [TypeError]. *)
Record library_error : Type :=
  { err_str : string; err_repr : string; is_type_error : bool }.

(** What a [try] body can end with: a library exception, or a
    [RuntimeError] the worker raises itself. *)
Inductive failure : Type :=
| Library (e : library_error)
| Runtime (msg : string).

Definition str_of (f : failure) : string :=
  match f with
  | Library e => err_str e
  | Runtime msg => msg
  end.

Inductive outcome (A : Type) : Type :=
| Returns (a : A)
| Raises (f : failure).
Arguments Returns {A} a.
Arguments Raises {A} f.

(** ** The radio

    A device as [BleakScanner.discover] reports it; an attribute that is
    missing or [None] is [None] here. *)
Record BLEDevice : Type :=
  { dev_name : option text; dev_address : string; dev_rssi : option Z }.

(** [client.services] or what [get_services] returns. *)
Record services : Type :=
  { has_get_service : bool;     (* hasattr(services, "get_service") *)
    has_nus : bool }.           (* get_service(NUS_SERVICE_UUID) is not None *)

(** What [get_services] does: how [await get_services()] ends and, for the
    case that this is with a [TypeError], how the plain call
    [get_services()] that the worker then makes ends. *)
Record service_call : Type :=
  { awaited : outcome (option services);
    called : outcome (option services) }.

(** How the [BleakClient] of one address answers each call the worker makes
    while connecting and disconnecting.  (The callbacks the worker registers
    on the client run later, on their own, and are not part of these
    sequences: see [on_disconnect] and [on_tx].) *)
Record client : Type :=
  { set_disconnected_callback : bool;   (* callable(getattr(client, ...)) *)
    connect_returns : outcome bool;
    link_up : bool;             (* is_connected once connect() has returned *)
    services_attr : option services;
    get_services : option service_call;
    start_notify_returns : outcome unit;
    stop_notify_returns : outcome unit;
    disconnect_returns : outcome unit }.

Definition radio := string -> client.

(** ** The worker

    Its own fields, the queue it posts to, and the links that are open on
    the radio. *)
Record t : Type := Worker
  { events : list event;
    _client : option string;
    _connected_address : option string;
    open_links : gset string }.

Definition put (e : event) (w : t) : t :=
  Worker (events w ++ [e]) (_client w) (_connected_address w) (open_links w).

(** The callback [on_disconnect] that [_connect_and_post] registers on the
    client when the client has [set_disconnected_callback]; the library runs
    it when the link of that client goes down.  It posts two events and
    leaves the fields of the worker, [_client] among them, as they are. *)
Definition on_disconnect (w : t) : t :=
  put (connected false) (put (status "Disconnected") w).

(** The callback [on_tx] that [_connect_and_post] hands to [start_notify];
    the library runs it on every notification of the peripheral. *)
Definition on_tx (data : bytes) (w : t) : t := put (rx data) w.

Definition UNKNOWN : text := text_of_string "<unknown>".

(** [a in b] on strings. *)
Fixpoint contains (hay needle : text) : bool :=
  match strip_prefix needle hay with
  | Some _ => true
  | None =>
    match hay with
    | [] => false
    | _ :: r => contains r needle
    end
  end.

(** [x.rssi or -999] *)
Definition rssi_or_sentinel (r : option Z) : Z :=
  match r with
  | None => (-999)%Z
  | Some v => if (v =? 0)%Z then (-999)%Z else v
  end.

(** [lambda x: (x.name == "<unknown>", -(x.rssi or -999))] *)
Definition sort_key (x : FoundDevice) : bool * Z :=
  (bool_decide (name x = UNKNOWN), (- rssi_or_sentinel (rssi x))%Z).

(** Order of the key tuples: first components first, [False < True]. *)
Definition key_le (a b : bool * Z) : bool :=
  match fst a, fst b with
  | false, true => true
  | true, false => false
  | _, _ => (snd a <=? snd b)%Z
  end.

Definition sort_found (found : list FoundDevice) : list FoundDevice :=
  sort_by key_le sort_key found.

Section Scan.
(** [str.lower], whose case tables are not reproduced. *)
Variable lower : text -> text.

(** The loop over the discovered devices. *)
Fixpoint collect (name_filter : text) (devices : list BLEDevice) : list FoundDevice :=
  match devices with
  | [] => []
  | d :: rest =>
    let name := strip (default [] (dev_name d)) in
    if negb (bool_decide (name_filter = [])) && negb (contains (lower name) (lower name_filter))
    then collect name_filter rest
    else {| name := (if bool_decide (name = []) then UNKNOWN else name);
            address := dev_address d;
            rssi := dev_rssi d |} :: collect name_filter rest
  end.

(** [_scan_and_post]; [discovered] is what [BleakScanner.discover] gives. *)
Definition _scan_and_post (name_filter : text)
           (discovered : outcome (list BLEDevice)) (w : t) : t :=
  match discovered with
  | Returns devices => put (scan_result (sort_found (collect name_filter devices))) w
  | Raises f =>
    put (error ("Scan failed: " +:+ match f with
                                    | Library e => err_repr e
                                    | Runtime msg => msg
                                    end)) w
  end.
End Scan.

Section Link.
Variable air : radio.

(** [_disconnect_silent]: the worker afterwards, and how the coroutine
    ends. *)
Definition _disconnect_silent (w : t) : t * outcome unit :=
  match _client w with
  | None => (w, Returns tt)
  | Some a =>
    let c := air a in
    (* try: stop_notify / except Exception: pass *)
    let after_stop : outcome unit :=
      match stop_notify_returns c with
      | Returns _ => Returns tt
      | Raises _ => Returns tt
      end in
    (* await self._client.disconnect() *)
    let body : gset string * outcome unit :=
      match after_stop with
      | Raises f => (open_links w, Raises f)
      | Returns _ =>
        match disconnect_returns c with
        | Returns _ => (open_links w ∖ {[a]}, Returns tt)
        | Raises f => (open_links w, Raises f)
        end
      end in
    (* except Exception: pass / finally: forget the client *)
    (Worker (events w) None None (fst body),
     match snd body with
     | Returns _ => Returns tt
     | Raises _ => Returns tt
     end)
  end.

(** The [try] body of [_connect_and_post]. *)
Definition connect_body (addr : string) (w : t) : t * outcome unit :=
  match _disconnect_silent w with
  | (w1, Raises f) => (w1, Raises f)
  | (w1, Returns _) =>
    let c := air addr in
    match connect_returns c with
    | Raises f => (w1, Raises f)
    | Returns ok =>
      let w2 := Worker (events w1) (_client w1) (_connected_address w1)
                       (if link_up c then open_links w1 ∪ {[addr]} else open_links w1) in
      if negb ok && negb (link_up c)
      then (w2, Raises (Runtime "connect() returned false"))
      else
        let found : outcome (option services) :=
          match services_attr c with
          | Some s => Returns (Some s)
          | None =>
            match get_services c with
            | None => Returns None
            | Some call =>
              (* try: services = await get_services()
                 except TypeError: services = get_services() *)
              match awaited call with
              | Raises (Library e) =>
                if is_type_error e then called call else Raises (Library e)
              | r => r
              end
            end
          end in
        match found with
        | Raises f => (w2, Raises f)
        | Returns sv =>
          if match sv with
             | Some s => has_get_service s && negb (has_nus s)
             | None => false
             end
          then (w2, Raises (Runtime ("Device missing NUS service " +:+ NUS_SERVICE_UUID)))
          else
            match start_notify_returns c with
            | Raises _ =>
              (w2, Raises (Runtime
                "Couldn't subscribe to NUS TX. Wrong device, or firmware not running NUS."))
            | Returns _ =>
              (put (connected true)
                 (put (status ("Connected to " +:+ addr))
                    (Worker (events w2) (Some addr) (Some addr) (open_links w2))),
               Returns tt)
            end
        end
    end
  end.

(** [_connect_and_post] *)
Definition _connect_and_post (addr : string) (w : t) : t * outcome unit :=
  match connect_body addr w with
  | (w', Returns _) => (w', Returns tt)
  | (w', Raises f) =>
    let w1 := put (error ("Connect failed: " +:+ str_of f)) w' in
    match _disconnect_silent w1 with
    | (w2, Raises f') => (w2, Raises f')
    | (w2, Returns _) => (put (connected false) w2, Returns tt)
    end
  end.

(** [_disconnect_and_post] *)
Definition _disconnect_and_post (w : t) : t * outcome unit :=
  match _disconnect_silent w with
  | (w1, Raises f) => (w1, Raises f)
  | (w1, Returns _) =>
    (put (connected false) (put (status "Disconnected") w1), Returns tt)
  end.
End Link.

(** [__init__] *)
Definition init : t := Worker [] None None ∅.

End BleWorker.


(* ===================================================================== *)
(** * class LaundryIQLogger                                               *)
(* ===================================================================== *)

Module LaundryIQLogger.
Import Py.

Record DataSample : Type :=
  { timestamp : float;
    ct_clamp : option float;
    hall1 : option float;
    hall2 : option float;
    state : string;
    elapsed_time : float }.

Record StateChange : Type :=
  { sc_timestamp : float; sc_state : string; sc_elapsed_time : float }.

(** A line of the log pane.  A line that prints a number, the date or the
    file name is kept by its kind and its data; how these are printed is not
    modelled. *)
Inductive log_line : Type :=
| Line (s : string)
| StateChangedLine (state : string) (elapsed : float)
| StartedLine
| FileLine
| StoppedLine.

Definition IGNORED : log_line :=
  Line ("State change ignored: Not logging." +:+ newline).

(** The fields of the application object that the data path reads or
    writes.  [csv_file] stands for the open CSV writer with the samples
    written through it so far. *)
Record t : Type := Logger
  { parser : DataParser.t;
    data_buffer : deque DataSample;
    state_changes : list StateChange;
    current_state : string;
    logging_start_time : option float;
    is_logging : bool;
    csv_file : option (list DataSample);
    sample_interval : float;
    last_sample_time : float;
    pending_data : dict (option float);
    calibration_factors : dict float;
    current_state_var : string;
    export_btn : bool;
    log_text : list log_line }.

(** [__init__] *)
Definition init : t :=
  {| parser := DataParser.init;
     data_buffer := Deque (Some (N.to_nat 10000)) [];
     state_changes := [];
     current_state := "Off";
     logging_start_time := None;
     is_logging := false;
     csv_file := None;
     sample_interval := 0x1.999999999999ap-4%float;   (* 0.1 *)
     last_sample_time := 0%float;
     pending_data := [("ct_clamp"%string, None); ("hall1"%string, None); ("hall2"%string, None)];
     calibration_factors :=
       [("ct_clamp"%string, 1%float); ("hall1"%string, 1%float); ("hall2"%string, 1%float)];
     current_state_var := "Off";
     export_btn := false;
     log_text := [] |}.

(** [_append_log] *)
Definition _append_log (l : log_line) (self : t) : t :=
  {| parser := parser self; data_buffer := data_buffer self;
     state_changes := state_changes self; current_state := current_state self;
     logging_start_time := logging_start_time self; is_logging := is_logging self;
     csv_file := csv_file self; sample_interval := sample_interval self;
     last_sample_time := last_sample_time self; pending_data := pending_data self;
     calibration_factors := calibration_factors self;
     current_state_var := current_state_var self; export_btn := export_btn self;
     log_text := log_text self ++ [l] |}.

(** The [except] branch of [_on_start_logging], taken when the directory,
    the file or its header cannot be written: the file handle, if there is
    one, is closed and forgotten with its writer. *)
Definition _on_start_logging_failed (self : t) : t :=
  {| parser := parser self; data_buffer := data_buffer self;
     state_changes := state_changes self; current_state := current_state self;
     logging_start_time := logging_start_time self; is_logging := is_logging self;
     csv_file := None; sample_interval := sample_interval self;
     last_sample_time := last_sample_time self; pending_data := pending_data self;
     calibration_factors := calibration_factors self;
     current_state_var := current_state_var self; export_btn := export_btn self;
     log_text := log_text self |}.

(** [_on_start_logging], as far as the data path goes.  [is_connected] is
    the value of [connected_var], [opened] tells whether the CSV file could
    be opened and its header written, [now] is the reading of the clock. *)
Definition _on_start_logging (is_connected opened : bool) (now : float) (self : t) : t :=
  if negb is_connected then self
  else if negb opened then _on_start_logging_failed self
  else
    {| parser := parser self;
       data_buffer := deque_clear (data_buffer self);
       state_changes := [];
       current_state := "Off";
       logging_start_time := Some now;
       is_logging := true;
       csv_file := Some [];
       sample_interval := sample_interval self;
       last_sample_time := 0%float;
       pending_data :=
         [("ct_clamp"%string, None); ("hall1"%string, None); ("hall2"%string, None)];
       calibration_factors := calibration_factors self;
       current_state_var := "Off";
       export_btn := false;
       log_text := log_text self ++ [StartedLine; FileLine] |}.

(** [_on_stop_logging] *)
Definition _on_stop_logging (self : t) : t :=
  {| parser := parser self; data_buffer := data_buffer self;
     state_changes := state_changes self; current_state := current_state self;
     logging_start_time := logging_start_time self; is_logging := false;
     csv_file := None; sample_interval := sample_interval self;
     last_sample_time := last_sample_time self; pending_data := pending_data self;
     calibration_factors := calibration_factors self;
     current_state_var := current_state_var self;
     export_btn := negb (length (elems (data_buffer self)) =? 0)%nat;
     log_text := log_text self ++ [StoppedLine] |}.

(** [_on_state_button]; [now1] and [now2] are the two readings of the
    clock the method takes. *)
Definition _on_state_button (new_state : string) (now1 now2 : float) (self : t)
  : result t :=
  if negb (is_logging self) then Ok (_append_log IGNORED self)
  else
    match logging_start_time self with
    | None => Raise TypeError
    | Some t0 =>
      let elapsed := PrimFloat.sub now1 t0 in
      Ok (_append_log (StateChangedLine new_state elapsed)
            {| parser := parser self; data_buffer := data_buffer self;
               state_changes :=
                 state_changes self
                 ++ [{| sc_timestamp := now2; sc_state := new_state;
                        sc_elapsed_time := elapsed |}];
               current_state := new_state;
               logging_start_time := logging_start_time self;
               is_logging := is_logging self;
               csv_file := csv_file self; sample_interval := sample_interval self;
               last_sample_time := last_sample_time self;
               pending_data := pending_data self;
               calibration_factors := calibration_factors self;
               current_state_var := new_state; export_btn := export_btn self;
               log_text := log_text self |})
    end.

Definition with_factors (f : dict float) (self : t) : t :=
  {| parser := parser self; data_buffer := data_buffer self;
     state_changes := state_changes self; current_state := current_state self;
     logging_start_time := logging_start_time self; is_logging := is_logging self;
     csv_file := csv_file self; sample_interval := sample_interval self;
     last_sample_time := last_sample_time self; pending_data := pending_data self;
     calibration_factors := f;
     current_state_var := current_state_var self; export_btn := export_btn self;
     log_text := log_text self |}.

(** One [try: factors[k] = float(entry) / except ValueError: pass]; the
    entry is given by what [float] makes of it. *)
Definition store_factor (k : string) (entry : result float) (self : t) : result t :=
  match entry with
  | Ok v => Ok (with_factors (setitem k v (calibration_factors self)) self)
  | Raise ValueError => Ok self
  | Raise e => Raise e
  end.

(** [_update_calibration] *)
Definition _update_calibration (ct_entry hall1_entry hall2_entry : result float)
           (self : t) : result t :=
  bind (store_factor "ct_clamp" ct_entry self) (fun s1 =>
  bind (store_factor "hall1" hall1_entry s1) (fun s2 =>
  store_factor "hall2" hall2_entry s2)).

(** [if v is not None: v *= factors[k]] *)
Definition calibrate (k : string) (v : option float) (self : t) : result (option float) :=
  match v with
  | None => Ok None
  | Some x => bind (getitem k (calibration_factors self))
                   (fun f => Ok (Some (PrimFloat.mul x f)))
  end.

Definition with_csv_file (rows : option (list DataSample)) (self : t) : t :=
  {| parser := parser self; data_buffer := data_buffer self;
     state_changes := state_changes self; current_state := current_state self;
     logging_start_time := logging_start_time self; is_logging := is_logging self;
     csv_file := rows; sample_interval := sample_interval self;
     last_sample_time := last_sample_time self; pending_data := pending_data self;
     calibration_factors := calibration_factors self;
     current_state_var := current_state_var self; export_btn := export_btn self;
     log_text := log_text self |}.

(** What the CSV block of [_process_sample] comes to when a writer is
    open.  [datetime.fromtimestamp] raises on a time stamp outside its
    range, [writerow] and [flush] raise when the file cannot be written;
    which of these happens is up to the platform, the clock and the file
    system, and so is an input of the method. *)
Inductive csv_write : Type :=
| RowWritten                (* the row is written and flushed *)
| RowRaises (e : exn)       (* [fromtimestamp] or [writerow] raises: no row *)
| FlushRaises (e : exn).    (* the row is written, [flush] raises *)

(** [_process_sample]: the object the call leaves behind, and how the call
    ends.  The sample is appended to the history before the CSV block runs,
    so that an exception of that block leaves it there. *)
Definition _process_sample (ts : float) (io : csv_write) (self : t) : t * result unit :=
  match logging_start_time self with
  | None => (self, Ok tt)
  | Some t0 =>
    if negb (float_truthy t0) then (self, Ok tt)
    else
      let elapsed := PrimFloat.sub ts t0 in
      let st := current_state self in
      match
        bind (getitem "ct_clamp" (pending_data self)) (fun ct_value =>
        bind (getitem "hall1" (pending_data self)) (fun h1_value =>
        bind (getitem "hall2" (pending_data self)) (fun h2_value =>
        bind (calibrate "ct_clamp" ct_value self) (fun ct_value =>
        bind (calibrate "hall1" h1_value self) (fun h1_value =>
        bind (calibrate "hall2" h2_value self) (fun h2_value =>
        Ok {| timestamp := ts; ct_clamp := ct_value; hall1 := h1_value;
              hall2 := h2_value; state := st; elapsed_time := elapsed |}))))))
      with
      | Raise e => (self, Raise e)
      | Ok sample =>
        let buffer := deque_append sample (data_buffer self) in
        let appended :=
          {| parser := parser self; data_buffer := buffer;
             state_changes := state_changes self;
             current_state := current_state self;
             logging_start_time := logging_start_time self;
             is_logging := is_logging self;
             csv_file := csv_file self;
             sample_interval := sample_interval self;
             last_sample_time := last_sample_time self;
             pending_data := pending_data self;
             calibration_factors := calibration_factors self;
             current_state_var := current_state_var self;
             export_btn :=
               (if (length (elems buffer) =? 1)%nat && negb (is_logging self)
                then true else export_btn self);
             log_text := log_text self |} in
        (* if self.csv_file: writerow([...]); flush() *)
        match csv_file self with
        | None => (appended, Ok tt)
        | Some rows =>
          match io with
          | RowWritten => (with_csv_file (Some (rows ++ [sample])) appended, Ok tt)
          | RowRaises e => (appended, Raise e)
          | FlushRaises e => (with_csv_file (Some (rows ++ [sample])) appended, Raise e)
          end
        end
      end
  end.

(** The loop of the [rx] branch of [_poll_events]:
    [for key, value in parsed.items(): if value is not None: pending[key] = value] *)
Definition merge_parsed (pending parsed : dict (option float)) : dict (option float) :=
  fold_left (fun acc kv => match snd kv with
                           | Some v => setitem (fst kv) (Some v) acc
                           | None => acc
                           end)
            (items parsed) pending.

Definition after_parse (p : DataParser.t) (pending : dict (option float)) (self : t) : t :=
  {| parser := p; data_buffer := data_buffer self;
     state_changes := state_changes self; current_state := current_state self;
     logging_start_time := logging_start_time self; is_logging := is_logging self;
     csv_file := csv_file self; sample_interval := sample_interval self;
     last_sample_time := last_sample_time self; pending_data := pending;
     calibration_factors := calibration_factors self;
     current_state_var := current_state_var self; export_btn := export_btn self;
     log_text := log_text self |}.

Definition with_last_sample_time (ts : float) (self : t) : t :=
  {| parser := parser self; data_buffer := data_buffer self;
     state_changes := state_changes self; current_state := current_state self;
     logging_start_time := logging_start_time self; is_logging := is_logging self;
     csv_file := csv_file self; sample_interval := sample_interval self;
     last_sample_time := ts; pending_data := pending_data self;
     calibration_factors := calibration_factors self;
     current_state_var := current_state_var self; export_btn := export_btn self;
     log_text := log_text self |}.

(** [_poll_events] on one [rx] event; [now] is the reading of the clock,
    [io] what the CSV block comes to if it is reached.  An exception of
    [_process_sample] leaves [last_sample_time] as it was. *)
Definition _poll_events_rx (data : bytes) (now : float) (io : csv_write) (self : t)
  : t * result unit :=
  let '(p, parsed) := DataParser.parse (parser self) data in
  match parsed with
  | Raise e => (after_parse p (pending_data self) self, Raise e)
  | Ok parsed =>
    let s1 := after_parse p (merge_parsed (pending_data self) parsed) self in
    if is_logging s1
       && PrimFloat.leb (sample_interval s1) (PrimFloat.sub now (last_sample_time s1))
    then
      match _process_sample now io s1 with
      | (s2, Ok _) => (with_last_sample_time now s2, Ok tt)
      | (s2, Raise e) => (s2, Raise e)
      end
    else (s1, Ok tt)
  end.

(** [_poll_events] on one [connected] event, as far as the fields of the
    logger go: losing the link while logging stops the session. *)
Definition _poll_events_connected (up : bool) (self : t) : t :=
  if negb up && is_logging self then _on_stop_logging self else self.

(** [_poll_events] on one [error] event. *)
Definition _poll_events_error (payload : string) (self : t) : t :=
  _append_log (Line ("[error] " +:+ payload +:+ newline)) self.

End LaundryIQLogger.


(* ===================================================================== *)
(** * Derived notions used in the statements                              *)
(* ===================================================================== *)

Import Py.

(** ** Parser *)

(** The text a chunk decodes to when it is fed to the parser. *)
Definition decoded (data : bytes) : text :=
  match decode_utf8 Replace data with
  | Ok s => s
  | Raise _ => []
  end.

(** No chunk boundary cuts a multi-octet sequence: decoding the chunks one
    by one gives the text of the whole. *)
Definition aligned (chunks : list bytes) : Prop :=
  decoded (concat chunks) = concat (map decoded chunks).

Definition is_ascii (b : Byte.byte) : Prop := Byte.to_N b < 0x80.

(** A dictionary with exactly the three channel keys, in their order. *)
Definition channels {V} (d : dict V) : Prop :=
  map fst d = ["ct_clamp"; "hall1"; "hall2"]%string.

(** The value one pattern yields on one stripped line, if any. *)
Definition token_value (tag line : text) : option float :=
  match re_search tag line with
  | None => None
  | Some group1 =>
    match float_of_text group1 with
    | Ok v => Some v
    | Raise _ => None
    end
  end.

(** A line that yields no value for any channel. *)
Definition noise (line : text) : Prop :=
  forall key tag, In (key, tag) DataParser.PATTERNS -> token_value tag (strip line) = None.

(** Storing a value under a channel key when there is one. *)
Definition store (k : string) (v : option float) (r : DataParser.readings)
  : DataParser.readings :=
  match v with
  | Some x => setitem k (Some x) r
  | None => r
  end.

(** The values of the three channels, in the order of the keys. *)
Definition triple : Type := option float * option float * option float.

Definition dict_of (v : triple) : DataParser.readings :=
  let '(a, b, c) := v in
  [("ct_clamp"%string, a); ("hall1"%string, b); ("hall2"%string, c)].

(** A later value, when present, supersedes an earlier one. *)
Definition over (old new : option float) : option float :=
  match new with
  | Some v => Some v
  | None => old
  end.

Definition combine3 (u v : triple) : triple :=
  let '(a, b, c) := u in
  let '(x, y, z) := v in
  (over a x, over b y, over c z).

Definition nothing : triple := (None, None, None).

(** What one complete line contributes. *)
Definition line_values (line : text) : triple :=
  match strip line with
  | [] => nothing
  | s => (token_value (text_of_string "CT_A") s,
          token_value (text_of_string "HALL1_A") s,
          token_value (text_of_string "HALL2_A") s)
  end.

Definition lines_values (lines : list text) : triple :=
  fold_left (fun acc l => combine3 acc (line_values l)) lines nothing.

(** The parser on decoded text: the fragment it keeps and the values of
    the lines it completes. *)
Definition run_text (buffer s : text) : text * triple :=
  (List.last (split_lines (buffer ++ s)) [],
   lines_values (removelast (split_lines (buffer ++ s)))).

(** Where a captured number stops: at the end of the line or before a
    character the capture class does not admit. *)
Definition ends_token (rest : text) : Prop :=
  match rest with
  | [] => True
  | c :: _ => is_num c = false
  end.

(** The lines a call completes: every fragment of the buffer joined to the
    decoded data, but the last. *)
Definition completed (p : DataParser.t) (data : bytes) : list text :=
  removelast (split_lines (DataParser._buffer p ++ decoded data)).

(** Lines written out again, each with its line feed. *)
Definition join_lines (lines : list text) : text :=
  flat_map (fun l => l ++ [LF]) lines.

(** Feeding chunks one call at a time: the parser afterwards and what each
    call returned. *)
Fixpoint feed (p : DataParser.t) (chunks : list bytes)
  : DataParser.t * result (list DataParser.readings) :=
  match chunks with
  | [] => (p, Ok [])
  | c :: rest =>
    match DataParser.parse p c with
    | (p', Raise e) => (p', Raise e)
    | (p', Ok r) =>
      match feed p' rest with
      | (q, Raise e) => (q, Raise e)
      | (q, Ok rs) => (q, Ok (r :: rs))
      end
    end
  end.

(** The pending reading after the consumer has merged the outputs in call
    order, starting with every channel absent. *)
Definition accumulate (outputs : list DataParser.readings) : DataParser.readings :=
  fold_left LaundryIQLogger.merge_parsed outputs DataParser.empty_result.

(** The (channel, value) pairs a call reports. *)
Definition pairs (r : DataParser.readings) : list (string * float) :=
  flat_map (fun kv => match snd kv with
                      | Some v => [(fst kv, v)]
                      | None => []
                      end) r.

(** Chunked and whole feeding report the same set of pairs. *)
Definition same_pairs (p : DataParser.t) (chunks : list bytes) : Prop :=
  forall q rs q' r,
    feed p chunks = (q, Ok rs) ->
    DataParser.parse p (concat chunks) = (q', Ok r) ->
    forall kv, In kv (flat_map pairs rs) <-> In kv (pairs r).

(** ** Scan results *)

(** [x] stands before [y] in [l]. *)
Definition before {A} (x y : A) (l : list A) : Prop :=
  exists l1 l2 l3, l = l1 ++ x :: l2 ++ y :: l3.

Definition unnamed (x : BleWorker.FoundDevice) : Prop :=
  BleWorker.name x = BleWorker.UNKNOWN.

Definition same_group (x y : BleWorker.FoundDevice) : Prop :=
  unnamed x <-> unnamed y.

(** The list the [scan_result] event carries. *)
Definition delivered (lower : text -> text) (name_filter : text)
           (devices : list BleWorker.BLEDevice) : list BleWorker.FoundDevice :=
  BleWorker.sort_found (BleWorker.collect lower name_filter devices).

(** [rx] is a strictly stronger signal than [ry], a missing one being the
    weakest. *)
Definition stronger (rx ry : option Z) : Prop :=
  match rx, ry with
  | Some a, Some b => (b < a)%Z
  | Some _, None => True
  | None, Some _ => False
  | None, None => True
  end.

(** Named before unnamed, and strictly descending strength within each of
    the two groups. *)
Definition strictly_ordered (found : list BleWorker.FoundDevice) : Prop :=
  forall x y, before x y found ->
    (unnamed x -> unnamed y)
    /\ (same_group x y -> stronger (BleWorker.rssi x) (BleWorker.rssi y)).



(** [str.lower] on ASCII text. *)
Definition lower_ascii (s : text) : text :=
  map (fun c => if (65 <=? c) && (c <=? 90) then c + 32 else c) s.

(** ** The worker's task stream *)

(** What runs on the worker's event loop: a coroutine submitted to it (a
    scan with what the discovery gives, a connect, a disconnect), or a
    callback the library runs between two coroutines: the link of the client
    at [addr] going down, be it lost or closed by the worker itself, or a
    notification arriving. *)
Inductive command : Type :=
| Scan (name_filter : text) (discovered : BleWorker.outcome (list BleWorker.BLEDevice))
| Connect (addr : string)
| Disconnect
| LinkDown (addr : string)
| Notify (data : bytes).

(** One of them run to its end, and a list of them run one after the
    other. *)
Definition run_command (lower : text -> text) (air : BleWorker.radio)
           (w : BleWorker.t) (c : command) : BleWorker.t :=
  match c with
  | Scan name_filter discovered => BleWorker._scan_and_post lower name_filter discovered w
  | Connect addr => fst (BleWorker._connect_and_post air addr w)
  | Disconnect => fst (BleWorker._disconnect_and_post air w)
  | LinkDown addr =>
    let w' := BleWorker.Worker (BleWorker.events w) (BleWorker._client w)
                               (BleWorker._connected_address w)
                               (BleWorker.open_links w ∖ {[addr]}) in
    if BleWorker.set_disconnected_callback (air addr)
    then BleWorker.on_disconnect w' else w'
  | Notify data => BleWorker.on_tx data w
  end.

Definition run_commands (lower : text -> text) (air : BleWorker.radio)
           (cs : list command) (w : BleWorker.t) : BleWorker.t :=
  fold_left (run_command lower air) cs w.

(** What the last [connected] event on the queue says, if there is one. *)
Definition last_connected (es : list BleWorker.event) : option bool :=
  fold_left (fun acc e => match e with
                          | BleWorker.connected up => Some up
                          | _ => acc
                          end) es None.

(** The name a discovered device shows after stripping, and whether the
    device passes the name filter. *)
Definition shown_name (d : BleWorker.BLEDevice) : text :=
  strip (default [] (BleWorker.dev_name d)).

Definition passes (lower : text -> text) (name_filter : text) (d : BleWorker.BLEDevice) : Prop :=
  name_filter = [] \/ BleWorker.contains (lower (shown_name d)) (lower name_filter) = true.

(** The entry of the scan result made for a discovered device. *)
Definition as_found (d : BleWorker.BLEDevice) : BleWorker.FoundDevice :=
  {| BleWorker.name := if bool_decide (shown_name d = []) then BleWorker.UNKNOWN else shown_name d;
     BleWorker.address := BleWorker.dev_address d;
     BleWorker.rssi := BleWorker.dev_rssi d |}.

(** The devices of a list that have a given sort key, in their order. *)
Definition with_key (k : bool * Z) (l : list BleWorker.FoundDevice) : list BleWorker.FoundDevice :=
  List.filter (fun x => bool_decide (BleWorker.sort_key x = k)) l.

(** The address the worker remembers is that of the client it holds, and
    it holds a client whenever the last [connected] event on the queue says
    that the link is up. *)
Definition in_step (w : BleWorker.t) : Prop :=
  BleWorker._connected_address w = BleWorker._client w
  /\ (last_connected (BleWorker.events w) = Some true -> BleWorker._client w <> None).

(** ** What happens to the logger *)

(** What [float] makes of a calibration entry: its value, or [ValueError]
    when the entry is not a number. *)
Definition entry (o : option float) : result float :=
  match o with
  | Some v => Ok v
  | None => Raise ValueError
  end.

(** The things that act on the logger: an event drained from the queue
    ([now] is the clock reading the [rx] branch takes, [io] what the CSV
    block comes to if the event reaches it), the Start button
    ([is_connected] is what [connected_var] holds, [opened] whether the file
    and its header could be written), the Stop button, a state button, an
    update of the calibration entries. *)
Inductive action : Type :=
| Event (e : BleWorker.event) (now : float) (io : LaundryIQLogger.csv_write)
| StartLogging (is_connected opened : bool) (now : float)
| StopLogging
| StateButton (state : string) (now1 now2 : float)
| UpdateCalibration (ct h1 h2 : option float).

(** The body of the loop of [_poll_events] on one event. *)
Definition handle (e : BleWorker.event) (now : float) (io : LaundryIQLogger.csv_write)
           (self : LaundryIQLogger.t) : LaundryIQLogger.t * result unit :=
  match e with
  | BleWorker.rx data => LaundryIQLogger._poll_events_rx data now io self
  | BleWorker.connected up => (LaundryIQLogger._poll_events_connected up self, Ok tt)
  | BleWorker.error payload => (LaundryIQLogger._poll_events_error payload self, Ok tt)
  | BleWorker.status _ => (self, Ok tt)
  | BleWorker.scan_result _ => (self, Ok tt)
  end.

(** The application while it runs: the logger, and whether [_poll_events]
    is still scheduled.  [_poll_events] schedules its next run in its last
    line, which an exception that escapes its loop skips: from then on no
    event is taken from the queue, while the buttons go on working. *)
Record program : Type := Program { logger : LaundryIQLogger.t; polling : bool }.

(** The application as [__init__] leaves it. *)
Definition started : program := Program LaundryIQLogger.init true.

(** A method that raises before it has changed anything. *)
Definition call (r : result LaundryIQLogger.t) (a : program) : program * result unit :=
  match r with
  | Ok s => (Program s (polling a), Ok tt)
  | Raise e => (a, Raise e)
  end.

(** One action: the application it leaves, and how the callback ends. *)
Definition perform (a : action) (r : program) : program * result unit :=
  match a with
  | Event e now io =>
    if polling r then
      match handle e now io (logger r) with
      | (s, Ok _) => (Program s true, Ok tt)
      | (s, Raise x) => (Program s false, Raise x)
      end
    else (r, Ok tt)
  | StartLogging is_connected opened now =>
    (Program (LaundryIQLogger._on_start_logging is_connected opened now (logger r))
             (polling r), Ok tt)
  | StopLogging => (Program (LaundryIQLogger._on_stop_logging (logger r)) (polling r), Ok tt)
  | StateButton state now1 now2 =>
    call (LaundryIQLogger._on_state_button state now1 now2 (logger r)) r
  | UpdateCalibration ct h1 h2 =>
    call (LaundryIQLogger._update_calibration (entry ct) (entry h1) (entry h2) (logger r)) r
  end.

(** The application after a run of actions, whether or not some of them
    raised. *)
Definition perform_all (actions : list action) (r : program) : program :=
  fold_left (fun r a => fst (perform a r)) actions r.

(** A run of [rx] events drained by [_poll_events], each with its clock
    reading and what the CSV block comes to: the logger at the end of the
    run, or at the first exception. *)
Fixpoint rx_all (chunks : list (bytes * float * LaundryIQLogger.csv_write))
         (self : LaundryIQLogger.t) : LaundryIQLogger.t * result unit :=
  match chunks with
  | [] => (self, Ok tt)
  | (data, now, io) :: rest =>
    match LaundryIQLogger._poll_events_rx data now io self with
    | (s, Ok _) => rx_all rest s
    | (s, Raise e) => (s, Raise e)
    end
  end.

(** What the CSV block leaves in an open file, and how it ends. *)
Definition rows_after (io : LaundryIQLogger.csv_write)
           (rows : list LaundryIQLogger.DataSample) (smp : LaundryIQLogger.DataSample)
  : list LaundryIQLogger.DataSample :=
  match io with
  | LaundryIQLogger.RowRaises _ => rows
  | _ => rows ++ [smp]
  end.

Definition csv_ends (io : LaundryIQLogger.csv_write) : result unit :=
  match io with
  | LaundryIQLogger.RowWritten => Ok tt
  | LaundryIQLogger.RowRaises e => Raise e
  | LaundryIQLogger.FlushRaises e => Raise e
  end.

(** Emissions one after the other, each with its time stamp and what the
    CSV block comes to: the logger they leave. *)
Definition emit_all (stamps : list (float * LaundryIQLogger.csv_write))
           (self : LaundryIQLogger.t) : LaundryIQLogger.t :=
  fold_left (fun s x => fst (LaundryIQLogger._process_sample (fst x) (snd x) s)) stamps self.

(** The bound of the history. *)
Definition CAPACITY : nat := N.to_nat 10000.

(** The last [CAPACITY] elements of a list. *)
Definition latest {A} (l : list A) : list A := skipn (length l - CAPACITY) l.

(** What every reachable state of the logger satisfies. *)
Record sound (self : LaundryIQLogger.t) : Prop :=
  { sound_pending : channels (LaundryIQLogger.pending_data self);
    sound_factors : channels (LaundryIQLogger.calibration_factors self);
    sound_maxlen : maxlen (LaundryIQLogger.data_buffer self) = Some CAPACITY;
    sound_length : (length (elems (LaundryIQLogger.data_buffer self)) <= CAPACITY)%nat;
    sound_logging :
      LaundryIQLogger.is_logging self = true ->
      exists t0, LaundryIQLogger.logging_start_time self = Some t0;
    sound_csv :
      forall rows,
        LaundryIQLogger.csv_file self = Some rows ->
        LaundryIQLogger.is_logging self = true;
    sound_state :
      LaundryIQLogger.current_state self
      = List.last (map LaundryIQLogger.sc_state (LaundryIQLogger.state_changes self)) "Off"%string;
    sound_state_var :
      LaundryIQLogger.current_state_var self = LaundryIQLogger.current_state self;
    sound_elapsed :
      match LaundryIQLogger.logging_start_time self with
      | Some t0 =>
        Forall (fun s => LaundryIQLogger.elapsed_time s
                         = PrimFloat.sub (LaundryIQLogger.timestamp s) t0)
               (elems (LaundryIQLogger.data_buffer self))
      | None => elems (LaundryIQLogger.data_buffer self) = []
      end;
    sound_buffer :
      Forall (fun c => c <> LF) (DataParser._buffer (LaundryIQLogger.parser self)) }.

(** The history against the rows of the open file: the last [CAPACITY]
    rows, or, once a row could not be written, those and the sample of that
    row. *)
Definition history_of (alive : bool) (rows history : list LaundryIQLogger.DataSample)
  : Prop :=
  history = latest rows
  \/ (alive = false /\ exists smp, history = latest (rows ++ [smp])).

(** One step of the decoder: the octets it consumes and the code point it
    gives for them.  Either a single ASCII octet, which stands for itself,
    or a run of octets with the high bit set, which gives a code point other
    than the line feed. *)
Inductive decoded_unit : bytes -> codepoint -> Prop :=
| unit_ascii (b : Byte.byte) :
    (Byte.to_N b < 0x80)%N -> decoded_unit [b] (Byte.to_N b)
| unit_high (pre : bytes) (c : codepoint) :
    pre <> [] -> Forall (fun b => (0x80 <= Byte.to_N b)%N) pre -> c <> LF ->
    decoded_unit pre c.

(** Adjacent samples were taken at clock readings at least [interval]
    apart, as the [rx] branch compares them. *)
Fixpoint spaced (interval : float) (l : list LaundryIQLogger.DataSample) : bool :=
  match l with
  | a :: (b :: _) as rest =>
    PrimFloat.leb interval
                  (PrimFloat.sub (LaundryIQLogger.timestamp b) (LaundryIQLogger.timestamp a))
    && spaced interval rest
  | _ => true
  end.

(** The truth value [_process_sample] takes of [logging_start_time]. *)
Definition session_started (self : LaundryIQLogger.t) : bool :=
  match LaundryIQLogger.logging_start_time self with
  | Some t0 => float_truthy t0
  | None => false
  end.

(** What ties the history and the open file to one another and, while
    the polling lasts, to [last_sample_time]. *)
Record paced (r : program) : Prop :=
  { paced_history :
      spaced (LaundryIQLogger.sample_interval (logger r))
             (elems (LaundryIQLogger.data_buffer (logger r))) = true;
    paced_history_last :
      polling r = true ->
      forall a, last (elems (LaundryIQLogger.data_buffer (logger r))) = Some a ->
                LaundryIQLogger.last_sample_time (logger r) = LaundryIQLogger.timestamp a;
    paced_rows :
      forall rows, LaundryIQLogger.csv_file (logger r) = Some rows ->
                   spaced (LaundryIQLogger.sample_interval (logger r)) rows = true
                   /\ history_of (polling r) rows
                                 (elems (LaundryIQLogger.data_buffer (logger r)));
    paced_empty :
      session_started (logger r) = false ->
      elems (LaundryIQLogger.data_buffer (logger r)) = []
      /\ forall rows, LaundryIQLogger.csv_file (logger r) = Some rows -> rows = [] }.

(** ** Concrete inputs *)

(** The octets of an ASCII line with its line feed. *)
Definition line_bytes (s : string) : bytes := bytes_of_string s ++ [Byte.x0a].

(** [b"CT_A:1.0\nHALL1_A:2.0\nHALL2"] then [b"_A:3.0\n"] *)
Definition scenario_chunks : list bytes :=
  [ line_bytes "CT_A:1.0" ++ line_bytes "HALL1_A:2.0" ++ bytes_of_string "HALL2";
    line_bytes "_A:3.0" ].

(** The first chunk of the scenario. *)
Definition scenario_chunks_first : bytes :=
  line_bytes "CT_A:1.0" ++ line_bytes "HALL1_A:2.0" ++ bytes_of_string "HALL2".

(** [b"CT_A:1.0\n"] then [b"CT_A:2.0\n"]: the split falls on a line break. *)
Definition two_line_chunks : list bytes :=
  [ line_bytes "CT_A:1.0"; line_bytes "CT_A:2.0" ].

Definition device (n : option string) (a : string) (r : option Z) : BleWorker.BLEDevice :=
  {| BleWorker.dev_name := option_map text_of_string n;
     BleWorker.dev_address := a;
     BleWorker.dev_rssi := r |}.

Definition found (n : string) (a : string) (r : option Z) : BleWorker.FoundDevice :=
  {| BleWorker.name := text_of_string n; BleWorker.address := a; BleWorker.rssi := r |}.

(** Alpha at -40, a device without a name at -30, Beta at -60. *)
Definition example_devices : list BleWorker.BLEDevice :=
  [ device (Some "Alpha"%string) "A1" (Some (-40)%Z);
    device None "U1" (Some (-30)%Z);
    device (Some "Beta"%string) "B1" (Some (-60)%Z) ].

(** Two named devices of equal strength. *)
Definition tied_devices : list BleWorker.BLEDevice :=
  [ device (Some "Alpha"%string) "A1" (Some (-40)%Z);
    device (Some "Beta"%string) "B1" (Some (-40)%Z) ].

(** Alpha at 0, Gamma without a strength, Beta at -1000. *)
Definition below_sentinel_devices : list BleWorker.BLEDevice :=
  [ device (Some "Alpha"%string) "A1" (Some 0%Z);
    device (Some "Gamma"%string) "G1" None;
    device (Some "Beta"%string) "B1" (Some (-1000)%Z) ].

(** A peripheral that accepts the connection and does not offer the UART
    service. *)
Definition without_nus : BleWorker.client :=
  {| BleWorker.set_disconnected_callback := true;
     BleWorker.connect_returns := BleWorker.Returns true;
     BleWorker.link_up := true;
     BleWorker.services_attr :=
       Some {| BleWorker.has_get_service := true; BleWorker.has_nus := false |};
     BleWorker.get_services := None;
     BleWorker.start_notify_returns := BleWorker.Returns tt;
     BleWorker.stop_notify_returns := BleWorker.Returns tt;
     BleWorker.disconnect_returns := BleWorker.Returns tt |}.

(** The logger a method leaves behind when it returns normally. *)
Definition returned (r : result LaundryIQLogger.t) : LaundryIQLogger.t :=
  match r with
  | Ok s => s
  | Raise _ => LaundryIQLogger.init
  end.

(** A peripheral that offers the UART service and answers every call. *)
Definition with_nus : BleWorker.client :=
  {| BleWorker.set_disconnected_callback := true;
     BleWorker.connect_returns := BleWorker.Returns true;
     BleWorker.link_up := true;
     BleWorker.services_attr :=
       Some {| BleWorker.has_get_service := true; BleWorker.has_nus := true |};
     BleWorker.get_services := None;
     BleWorker.start_notify_returns := BleWorker.Returns tt;
     BleWorker.stop_notify_returns := BleWorker.Returns tt;
     BleWorker.disconnect_returns := BleWorker.Returns tt |}.

(** A client of an older library: it has no [services] attribute, and its
    [get_services] is a plain function, so that awaiting what it returns
    raises [TypeError]; called again, it returns the services. *)
Definition plain_get_services : BleWorker.client :=
  {| BleWorker.set_disconnected_callback := true;
     BleWorker.connect_returns := BleWorker.Returns true;
     BleWorker.link_up := true;
     BleWorker.services_attr := None;
     BleWorker.get_services :=
       Some {| BleWorker.awaited :=
                 BleWorker.Raises
                   (BleWorker.Library
                      {| BleWorker.err_str := "object can't be used in 'await' expression";
                         BleWorker.err_repr := "TypeError()";
                         BleWorker.is_type_error := true |});
               BleWorker.called :=
                 BleWorker.Returns
                   (Some {| BleWorker.has_get_service := true;
                            BleWorker.has_nus := true |}) |};
     BleWorker.start_notify_returns := BleWorker.Returns tt;
     BleWorker.stop_notify_returns := BleWorker.Returns tt;
     BleWorker.disconnect_returns := BleWorker.Returns tt |}.

(** A worker connected to the peripheral at [AA:BB]. *)
Definition connected_worker : BleWorker.t :=
  fst (BleWorker._connect_and_post (fun _ => with_nus) "AA:BB" BleWorker.init).

(** A logging session started at time 100.  The line [CT_A:1.5] arrives at
    100.25 and is sampled with the factors at their default; then the CT
    clamp factor is set to 2.0, the two Hall entries being left empty. *)
Definition first_sample_taken : LaundryIQLogger.t :=
  fst (LaundryIQLogger._poll_events_rx (line_bytes "CT_A:1.5") 100.25%float
         LaundryIQLogger.RowWritten
         (LaundryIQLogger._on_start_logging true true 100%float LaundryIQLogger.init)).

Definition calibrated_session : LaundryIQLogger.t :=
  returned
    (LaundryIQLogger._update_calibration (Ok 2%float) (Raise ValueError) (Raise ValueError)
       first_sample_taken).

(** The sample emitted at time [ts], for given pending values and
    factors. *)
Definition sample_of (self : LaundryIQLogger.t) (ts t0 : float)
           (pending : triple) (f_ct f_h1 f_h2 : float) : LaundryIQLogger.DataSample :=
  let '(ct, h1, h2) := pending in
  {| LaundryIQLogger.timestamp := ts;
     LaundryIQLogger.ct_clamp := option_map (fun v => PrimFloat.mul v f_ct) ct;
     LaundryIQLogger.hall1 := option_map (fun v => PrimFloat.mul v f_h1) h1;
     LaundryIQLogger.hall2 := option_map (fun v => PrimFloat.mul v f_h2) h2;
     LaundryIQLogger.state := LaundryIQLogger.current_state self;
     LaundryIQLogger.elapsed_time := PrimFloat.sub ts t0 |}.

(** Appending samples to a history one after the other. *)
Definition append_all (samples : list LaundryIQLogger.DataSample)
           (history : deque LaundryIQLogger.DataSample) : deque LaundryIQLogger.DataSample :=
  fold_left (fun d s => deque_append s d) samples history.

(** A session started at time 100 on the logger as it is made. *)
Definition fresh_session : LaundryIQLogger.t :=
  LaundryIQLogger._on_start_logging true true 100%float LaundryIQLogger.init.

(** A session is started at 100 and the line [CT_A:1.5] arrives at
    100.25. *)
Definition one_sample_run : list action :=
  [ StartLogging true true 100%float;
    Event (BleWorker.rx (line_bytes "CT_A:1.5")) 100.25%float LaundryIQLogger.RowWritten ].

(** 10,001 emissions at the times 101, 102, ...; the row of every third
    one cannot be written. *)
Definition many_stamps : list (float * LaundryIQLogger.csv_write) :=
  map (fun i => (PrimFloat.of_uint63 (Uint63.of_Z (Z.of_nat (101 + i))),
                 if (i mod 3 =? 0)%nat
                 then LaundryIQLogger.RowRaises OSError
                 else LaundryIQLogger.RowWritten))
      (seq 0 (N.to_nat 10001)).

(** The session above after one more line has arrived, on another
    channel. *)
Definition calibrated_session_later : LaundryIQLogger.t :=
  fst (LaundryIQLogger._poll_events_rx (line_bytes "HALL1_A:2") 100.5%float
         LaundryIQLogger.RowWritten calibrated_session).

(* ===================================================================== *)
(** * Properties of the run-time model                                    *)
(* ===================================================================== *)

Section Decoding.

Lemma decode_replace_total (data : bytes) :
  exists s, decode_utf8 Replace data = Ok s.
Proof.
  remember (length data) as n eqn:Hn.
  revert data Hn.
  induction n as [n IH] using lt_wf_ind; intros data Hn.
  assert (rec : forall r, (length r < n)%nat -> exists s, decode_utf8 Replace r = Ok s)
    by (intros r Hr; exact (IH _ Hr r eq_refl)).
  assert (skip : forall r, (length r < n)%nat ->
                 exists s, on_error Replace (decode_utf8 Replace r) = Ok s)
    by (intros r Hr; destruct (rec r Hr) as [s ->]; simpl; eauto).
  assert (keep : forall c r, (length r < n)%nat ->
                 exists s, rmap (cons c) (decode_utf8 Replace r) = Ok s)
    by (intros c r Hr; destruct (rec r Hr) as [s ->]; simpl; eauto).
  clear IH rec.
  destruct data as [|b0 r1]; [simpl; eauto|].
  cbn [decode_utf8]; cbv zeta.
  repeat match goal with
         | |- exists s, (if ?c then _ else _) = Ok s => destruct c
         | |- exists s, match ?r with [] => _ | _ :: _ => _ end = Ok s =>
             destruct r; simpl in Hn
         | |- exists s, on_error Replace (Ok []) = Ok s => simpl; eauto
         | |- exists s, on_error Replace (decode_utf8 Replace _) = Ok s =>
             apply skip; subst n; simpl; lia
         | |- exists s, rmap _ (decode_utf8 Replace _) = Ok s =>
             apply keep; subst n; simpl; lia
         end.
Qed.

Lemma rmap_ok_inv {A B} (f : A -> B) (r : result A) (b : B) :
  rmap f r = Ok b -> exists a, r = Ok a /\ b = f a.
Proof. destruct r; simpl; intros H; inversion H; eauto. Qed.

(** Where strict decoding succeeds, decoding with replacement gives the
    same text. *)
Lemma decode_strict_replace (data : bytes) (s : text) :
  decode_utf8 Strict data = Ok s -> decode_utf8 Replace data = Ok s.
Proof.
  remember (length data) as n eqn:Hn.
  revert data s Hn.
  induction n as [n IH] using lt_wf_ind; intros data s Hn.
  assert (keep : forall c r s', (length r < n)%nat ->
                 rmap (cons c) (decode_utf8 Strict r) = Ok s' ->
                 rmap (cons c) (decode_utf8 Replace r) = Ok s').
  { intros c r s' Hr H. apply rmap_ok_inv in H as (a & Ha & ->).
    rewrite (IH _ Hr r a eq_refl Ha). reflexivity. }
  clear IH.
  destruct data as [|b0 r1]; [simpl; auto|].
  cbn [decode_utf8]; cbv zeta.
  repeat match goal with
         | |- (if ?c then _ else _) = Ok _ -> _ => destruct c
         | |- match ?r with [] => _ | _ :: _ => _ end = Ok _ -> _ =>
             destruct r; simpl in Hn
         | |- on_error Strict _ = Ok _ -> _ => simpl; discriminate
         | |- rmap _ (decode_utf8 Strict _) = Ok _ -> _ =>
             apply keep; subst n; simpl; lia
         end.
Qed.

Lemma decoded_eq (data : bytes) : decode_utf8 Replace data = Ok (decoded data).
Proof.
  unfold decoded. destruct (decode_replace_total data) as [s ->]. reflexivity.
Qed.

Lemma decoded_ascii_cons (b : Byte.byte) (rest : bytes) :
  is_ascii b -> decoded (b :: rest) = Byte.to_N b :: decoded rest.
Proof.
  unfold is_ascii, decoded. intros Hb. cbn [decode_utf8]; cbv zeta.
  apply N.ltb_lt in Hb. rewrite Hb.
  destruct (decode_replace_total rest) as [s ->]. reflexivity.
Qed.

(** An ASCII chunk decodes on its own, whatever follows it. *)
Lemma decoded_ascii_app (a rest : bytes) :
  Forall is_ascii a -> decoded (a ++ rest) = decoded a ++ decoded rest.
Proof.
  induction 1 as [|b a Hb _ IH]; [reflexivity|].
  rewrite <- app_comm_cons, !decoded_ascii_cons, IH by assumption. reflexivity.
Qed.

(** Chunks of which all but the last are ASCII are aligned. *)
Lemma ascii_chunks_aligned (chunks : list bytes) (final : bytes) :
  Forall (Forall is_ascii) chunks -> aligned (chunks ++ [final]).
Proof.
  unfold aligned. induction 1 as [|c cs Hc _ IH]; simpl.
  - rewrite !app_nil_r. reflexivity.
  - rewrite decoded_ascii_app, IH by assumption. reflexivity.
Qed.

End Decoding.

Section Lines.

Lemma split_lines_nonempty (s : text) : split_lines s <> [].
Proof.
  destruct s as [|c r]; simpl; [discriminate|].
  destruct (c =? LF); [discriminate|].
  destruct (split_lines r); discriminate.
Qed.

Lemma last_item_ok {A} (xs : list A) (d : A) :
  xs <> [] -> last_item xs = Ok (List.last xs d).
Proof.
  intros Hne. destruct (exists_last Hne) as (l & x & ->).
  unfold last_item. rewrite rev_app_distr, last_last. reflexivity.
Qed.

(** Splitting a concatenation: the last fragment of the left part is
    joined to the first fragment of the right part. *)
Lemma split_lines_app (a b : text) :
  split_lines (a ++ b) =
  removelast (split_lines a)
  ++ (List.last (split_lines a) [] ++ hd [] (split_lines b)) :: tl (split_lines b).
Proof.
  induction a as [|c a IH]; simpl.
  - pose proof (split_lines_nonempty b) as Hb.
    destruct (split_lines b); [now elim Hb|reflexivity].
  - destruct (c =? LF).
    + rewrite IH. pose proof (split_lines_nonempty a) as Ha.
      destruct (split_lines a); [now elim Ha|]. reflexivity.
    + rewrite IH. pose proof (split_lines_nonempty a) as Ha.
      destruct (split_lines a) as [|h t]; [now elim Ha|].
      destruct t; reflexivity.
Qed.

(** A text without a line feed is a single fragment. *)
Lemma split_lines_single (s : text) :
  Forall (fun c => c <> LF) s -> split_lines s = [s].
Proof.
  induction 1 as [|c s Hc _ IH]; [reflexivity|]. simpl.
  apply N.eqb_neq in Hc. rewrite Hc, IH. reflexivity.
Qed.

Lemma split_lines_last_no_lf (s : text) :
  Forall (fun c => c <> LF) (List.last (split_lines s) []).
Proof.
  induction s as [|c s IH]; simpl; [constructor|].
  pose proof (split_lines_nonempty s) as Hs.
  destruct (N.eqb_spec c LF).
  - destruct (split_lines s); [now elim Hs|]. exact IH.
  - destruct (split_lines s) as [|h t]; [now elim Hs|].
    destruct t; [constructor; assumption|exact IH].
Qed.

(** The parser's view: the complete lines of a concatenation are those of
    the left part followed by those of what the left part leaves over
    joined to the right part. *)
Lemma split_lines_resume (a b : text) :
  split_lines (a ++ b) =
  removelast (split_lines a) ++ split_lines (List.last (split_lines a) [] ++ b).
Proof.
  rewrite (split_lines_app (List.last (split_lines a) []) b).
  rewrite (split_lines_single _ (split_lines_last_no_lf a)). simpl.
  apply split_lines_app.
Qed.

Lemma list_last_app {A} (l1 l2 : list A) (d : A) :
  l2 <> [] -> List.last (l1 ++ l2) d = List.last l2 d.
Proof.
  intros Hne. destruct (exists_last Hne) as (l & x & ->).
  rewrite app_assoc, !last_last. reflexivity.
Qed.

Lemma removelast_resume (a b : text) :
  removelast (split_lines (a ++ b)) =
  removelast (split_lines a)
  ++ removelast (split_lines (List.last (split_lines a) [] ++ b)).
Proof.
  rewrite split_lines_resume. apply removelast_app, split_lines_nonempty.
Qed.

Lemma last_resume (a b : text) :
  List.last (split_lines (a ++ b)) [] =
  List.last (split_lines (List.last (split_lines a) [] ++ b)) [].
Proof.
  rewrite split_lines_resume. apply list_last_app, split_lines_nonempty.
Qed.

End Lines.

Section Scanning.

Lemma float_of_text_raises (s : text) (e : exn) :
  float_of_text s = Raise e -> e = ValueError.
Proof.
  unfold float_of_text.
  repeat match goal with
         | |- context [let '(_, _) := ?x in _] => destruct x
         | |- context [match ?x with _ => _ end] => destruct x
         end; congruence.
Qed.

Lemma scan_pattern_eq (line : text) (r : DataParser.readings) (k : string) (tag : text) :
  DataParser.scan_pattern line r (k, tag) = Ok (store k (token_value tag line) r).
Proof.
  unfold DataParser.scan_pattern, token_value, store.
  destruct (re_search tag line) as [g|]; [|reflexivity].
  destruct (float_of_text g) as [v|e] eqn:E; [reflexivity|].
  apply float_of_text_raises in E. subst e. reflexivity.
Qed.

Lemma channels_dict_of (r : DataParser.readings) :
  channels r <-> exists v, r = dict_of v.
Proof.
  unfold channels. split.
  - destruct r as [|[k1 a] [|[k2 b] [|[k3 c] [|]]]]; simpl; try discriminate.
    intros H. injection H as -> -> ->. exists (a, b, c). reflexivity.
  - intros [[[a b] c] ->]. reflexivity.
Qed.

Lemma scan_line_dict_of (u : triple) (line : text) :
  DataParser.scan_line (dict_of u) line = Ok (dict_of (combine3 u (line_values line))).
Proof.
  destruct u as [[a b] c].
  unfold DataParser.scan_line, line_values.
  destruct (strip line) as [|ch s]; [reflexivity|].
  unfold items, DataParser.PATTERNS. cbn [DataParser.scan_patterns].
  rewrite scan_pattern_eq. cbn [bind].
  rewrite scan_pattern_eq. cbn [bind].
  rewrite scan_pattern_eq. cbn [bind].
  destruct (token_value _ _), (token_value _ _), (token_value _ _); reflexivity.
Qed.

Lemma combine3_assoc (u v w : triple) :
  combine3 (combine3 u v) w = combine3 u (combine3 v w).
Proof.
  destruct u as [[a b] c], v as [[x y] z], w as [[p q] r].
  destruct p, q, r; reflexivity.
Qed.

Lemma combine3_nothing_l (v : triple) : combine3 nothing v = v.
Proof. destruct v as [[[x|] [y|]] [z|]]; reflexivity. Qed.

Lemma combine3_nothing_r (v : triple) : combine3 v nothing = v.
Proof. destruct v as [[x y] z]; reflexivity. Qed.

Lemma fold_combine3 (u : triple) (lines : list text) :
  fold_left (fun acc l => combine3 acc (line_values l)) lines u
  = combine3 u (lines_values lines).
Proof.
  unfold lines_values. revert u.
  induction lines as [|l lines IH]; intros u; cbn [fold_left].
  - symmetry. apply combine3_nothing_r.
  - rewrite IH, (IH (combine3 nothing _)), combine3_nothing_l, combine3_assoc.
    reflexivity.
Qed.

Lemma lines_values_app (l1 l2 : list text) :
  lines_values (l1 ++ l2) = combine3 (lines_values l1) (lines_values l2).
Proof.
  unfold lines_values at 1. rewrite fold_left_app. apply fold_combine3.
Qed.

Lemma scan_lines_dict_of (u : triple) (lines : list text) :
  DataParser.scan_lines (dict_of u) lines
  = Ok (dict_of (combine3 u (lines_values lines))).
Proof.
  revert u. induction lines as [|l lines IH]; intros u.
  - simpl. rewrite combine3_nothing_r. reflexivity.
  - cbn [DataParser.scan_lines]. rewrite scan_line_dict_of. cbn [bind].
    rewrite IH. change (l :: lines) with ([l] ++ lines).
    rewrite lines_values_app, <- combine3_assoc. do 3 f_equal.
    unfold lines_values. cbn [fold_left]. rewrite combine3_nothing_l. reflexivity.
Qed.

(** [parse] always returns: the buffer keeps the last fragment, the
    result holds the values of the complete lines. *)
Lemma parse_eq (p : DataParser.t) (data : bytes) :
  DataParser.parse p data
  = (DataParser.Parser (fst (run_text (DataParser._buffer p) (decoded data))),
     Ok (dict_of (snd (run_text (DataParser._buffer p) (decoded data))))).
Proof.
  unfold DataParser.parse, run_text. rewrite decoded_eq. cbv zeta.
  rewrite (last_item_ok _ ([] : text)) by apply split_lines_nonempty.
  unfold all_but_last. change DataParser.empty_result with (dict_of nothing).
  rewrite scan_lines_dict_of, combine3_nothing_l. reflexivity.
Qed.

Lemma run_text_app (buffer s1 s2 : text) :
  run_text buffer (s1 ++ s2)
  = (fst (run_text (fst (run_text buffer s1)) s2),
     combine3 (snd (run_text buffer s1)) (snd (run_text (fst (run_text buffer s1)) s2))).
Proof.
  unfold run_text. cbn [fst snd]. rewrite app_assoc.
  rewrite last_resume, removelast_resume, lines_values_app. reflexivity.
Qed.

Lemma merge_parsed_dict_of (u v : triple) :
  LaundryIQLogger.merge_parsed (dict_of u) (dict_of v) = dict_of (combine3 u v).
Proof.
  destruct u as [[a b] c], v as [[[x|] [y|]] [z|]]; reflexivity.
Qed.

Lemma accumulate_dict_of (u : triple) (vs : list triple) :
  fold_left LaundryIQLogger.merge_parsed (map dict_of vs) (dict_of u)
  = dict_of (fold_left combine3 vs u).
Proof.
  revert u. induction vs as [|v vs IH]; intros u; [reflexivity|].
  simpl. rewrite merge_parsed_dict_of. apply IH.
Qed.

Lemma fold_left_combine3 (u : triple) (vs : list triple) :
  fold_left combine3 vs u = combine3 u (fold_left combine3 vs nothing).
Proof.
  revert u. induction vs as [|v vs IH]; intros u; cbn [fold_left].
  - symmetry. apply combine3_nothing_r.
  - rewrite IH, (IH (combine3 nothing v)), combine3_nothing_l, combine3_assoc.
    reflexivity.
Qed.

(** Feeding one chunk after another is the parser on the joined text. *)
Lemma feed_eq (rest : list bytes) :
  forall (p : DataParser.t) (c : bytes),
  exists vs,
    feed p (c :: rest)
    = (DataParser.Parser
         (fst (run_text (DataParser._buffer p) (concat (map decoded (c :: rest))))),
       Ok (map dict_of vs))
    /\ fold_left combine3 vs nothing
       = snd (run_text (DataParser._buffer p) (concat (map decoded (c :: rest)))).
Proof.
  induction rest as [|c2 rest IH]; intros p c.
  - exists [snd (run_text (DataParser._buffer p) (decoded c))].
    cbn [feed map concat]. rewrite parse_eq, app_nil_r. cbn [fold_left].
    rewrite combine3_nothing_l. auto.
  - destruct (IH (DataParser.Parser (fst (run_text (DataParser._buffer p) (decoded c)))) c2)
      as (vs & Hfeed & Hvs).
    exists (snd (run_text (DataParser._buffer p) (decoded c)) :: vs).
    change (feed p (c :: c2 :: rest)) with
      (match DataParser.parse p c with
       | (p', Raise e) => (p', Raise e)
       | (p', Ok r) =>
         match feed p' (c2 :: rest) with
         | (q, Raise e) => (q, Raise e)
         | (q, Ok rs) => (q, Ok (r :: rs))
         end
       end).
    rewrite parse_eq, Hfeed.
    change (concat (map decoded (c :: c2 :: rest)))
      with (decoded c ++ concat (map decoded (c2 :: rest))).
    rewrite run_text_app. cbn [fst snd DataParser._buffer] in *.
    split; [reflexivity|].
    cbn [fold_left]. rewrite combine3_nothing_l, fold_left_combine3, Hvs. reflexivity.
Qed.

Lemma pairs_combine3 (u v : triple) (kv : string * float) :
  In kv (pairs (dict_of (combine3 u v))) ->
  In kv (pairs (dict_of u)) \/ In kv (pairs (dict_of v)).
Proof.
  destruct u as [[[a|] [b|]] [c|]], v as [[[x|] [y|]] [z|]];
    cbn; intuition auto.
Qed.

Lemma pairs_fold (vs : list triple) (kv : string * float) :
  In kv (pairs (dict_of (fold_left combine3 vs nothing))) ->
  In kv (flat_map pairs (map dict_of vs)).
Proof.
  induction vs as [|v vs IH]; [cbn; tauto|].
  cbn [fold_left map flat_map]. rewrite combine3_nothing_l, fold_left_combine3.
  intros H. apply in_or_app. apply pairs_combine3 in H as [H|H]; auto.
Qed.

End Scanning.

Section Patterns.

Lemma space_codepoints (c : codepoint) :
  is_space c = true ->
  In c [0x09; 0x0A; 0x0B; 0x0C; 0x0D; 0x1C; 0x1D; 0x1E; 0x1F; 0x20; 0x85; 0xA0;
        0x1680; 0x2000; 0x2001; 0x2002; 0x2003; 0x2004; 0x2005; 0x2006; 0x2007;
        0x2008; 0x2009; 0x200A; 0x2028; 0x2029; 0x202F; 0x205F; 0x3000].
Proof.
  unfold is_space, space_ranges. cbn [existsb fst snd].
  rewrite !orb_true_iff, !andb_true_iff, !N.leb_le. cbn [In]. lia.
Qed.

(** The separator class and the capture class share no character. *)
Lemma sep_not_num (c : codepoint) : is_sep c = true -> is_num c = false.
Proof.
  unfold is_sep. rewrite !orb_true_iff, !N.eqb_eq.
  intros [[-> | H] | ->]; [reflexivity| |reflexivity].
  apply space_codepoints in H. cbn [In] in H.
  repeat (destruct H as [<- | H]; [vm_compute; reflexivity|]). contradiction.
Qed.

Lemma num_not_sep (c : codepoint) : is_num c = true -> is_sep c = false.
Proof.
  intros H. destruct (is_sep c) eqn:E; [|reflexivity].
  apply sep_not_num in E. congruence.
Qed.

Lemma run_app (p : codepoint -> bool) (xs ys : text) :
  Forall (fun c => p c = true) xs -> run p (xs ++ ys) = xs ++ run p ys.
Proof.
  induction 1 as [|c xs Hc _ IH]; [reflexivity|].
  simpl. rewrite Hc, IH. reflexivity.
Qed.

Lemma run_stop (p : codepoint -> bool) (ys : text) :
  match ys with [] => True | c :: _ => p c = false end -> run p ys = [].
Proof. destruct ys as [|c ys]; [reflexivity|]. simpl. intros ->. reflexivity. Qed.

Lemma strip_prefix_app (lit s : text) : strip_prefix lit (lit ++ s) = Some s.
Proof.
  induction lit as [|a lit IH]; [destruct s; reflexivity|].
  simpl. rewrite N.eqb_refl. exact IH.
Qed.

Lemma skipn_length_app {A} (xs ys : list A) : skipn (length xs) (xs ++ ys) = ys.
Proof. induction xs; [reflexivity|assumption]. Qed.

(** Tag, one or more separators, a run of capture characters: a match,
    whose group is the whole run. *)
Lemma match_at_token (tag seps num rest : text) :
  seps <> [] -> Forall (fun c => is_sep c = true) seps ->
  num <> [] -> Forall (fun c => is_num c = true) num ->
  ends_token rest ->
  match_at tag (tag ++ seps ++ num ++ rest) = Some num.
Proof.
  intros Hseps Fseps Hnum Fnum Hrest.
  unfold match_at. rewrite strip_prefix_app.
  rewrite (run_app is_sep) by assumption.
  rewrite (run_stop is_sep (num ++ rest)), app_nil_r.
  2:{ destruct num as [|c num]; [contradiction|]. simpl.
      apply num_not_sep. inversion Fnum; assumption. }
  destruct seps as [|s seps]; [contradiction|].
  change (length (s :: seps)) with (S (length seps)).
  cbn [give_back].
  change (S (length seps)) with (length (s :: seps)).
  rewrite skipn_length_app, (run_app is_num) by assumption.
  rewrite (run_stop is_num rest), app_nil_r by exact Hrest.
  destruct num; [contradiction|reflexivity].
Qed.

(** The tag directly followed by capture characters: no match there. *)
Lemma match_at_unseparated (tag num rest : text) :
  num <> [] -> Forall (fun c => is_num c = true) num ->
  match_at tag (tag ++ num ++ rest) = None.
Proof.
  intros Hnum Fnum. unfold match_at. rewrite strip_prefix_app.
  rewrite (run_stop is_sep); [reflexivity|].
  destruct num as [|c num]; [contradiction|]. simpl.
  apply num_not_sep. inversion Fnum; assumption.
Qed.

Lemma re_search_here (tag s g : text) :
  match_at tag s = Some g -> re_search tag s = Some g.
Proof. intros H. destruct s; simpl; rewrite H; reflexivity. Qed.

(** The search moves past every position at which nothing matches. *)
Lemma re_search_skip (tag pre s : text) :
  (forall k, (k < length pre)%nat -> match_at tag (skipn k (pre ++ s)) = None) ->
  re_search tag (pre ++ s) = re_search tag s.
Proof.
  induction pre as [|c pre IH]; intros H; [reflexivity|].
  pose proof (H 0%nat ltac:(simpl; lia)) as H0. cbn [skipn app] in H0.
  cbn [app re_search]. rewrite H0.
  apply IH. intros k Hk. apply (H (S k)). simpl; lia.
Qed.

Lemma scan_lines_app (r : DataParser.readings) (l1 l2 : list text) :
  DataParser.scan_lines r (l1 ++ l2)
  = bind (DataParser.scan_lines r l1) (fun r' => DataParser.scan_lines r' l2).
Proof.
  revert r. induction l1 as [|l l1 IH]; intros r; [reflexivity|].
  cbn [app DataParser.scan_lines].
  destruct (DataParser.scan_line r l); cbn [bind]; [apply IH|reflexivity].
Qed.

Lemma scan_line_noise (r : DataParser.readings) (bad : text) :
  noise bad -> DataParser.scan_line r bad = Ok r.
Proof.
  intros Hbad. unfold DataParser.scan_line.
  destruct (strip bad) as [|ch s] eqn:E; [reflexivity|].
  unfold items, DataParser.PATTERNS. cbn [DataParser.scan_patterns].
  rewrite !scan_pattern_eq. cbn [bind].
  rewrite <- E.
  rewrite (Hbad "ct_clamp"%string) by (cbn; auto). cbn [store bind].
  rewrite scan_pattern_eq.
  rewrite (Hbad "hall1"%string) by (cbn; auto). cbn [store bind].
  rewrite scan_pattern_eq.
  rewrite (Hbad "hall2"%string) by (cbn; auto). reflexivity.
Qed.

End Patterns.

(* ===================================================================== *)
(** * The stream parser                                                   *)
(* ===================================================================== *)

Section ParserClaims.

Lemma float_2_neq_1 : 2%float <> 1%float.
Proof.
  intros H.
  assert (E : PrimFloat.eqb 2 1 = PrimFloat.eqb 1 1) by (rewrite H; reflexivity).
  vm_compute in E. discriminate E.
Qed.

(** C1, as stated, fails: fed [b"CT_A:1.0\n"] and then [b"CT_A:2.0\n"],
    the two calls report (ct_clamp, 1.0) and (ct_clamp, 2.0); fed both
    lines in one call, the parser reports (ct_clamp, 2.0) only, the later
    line having overwritten the earlier one. *)
Lemma chunked_pairs_differ : ~ same_pairs DataParser.init two_line_chunks.
Proof.
  intros H.
  specialize (H (DataParser.Parser [])
                [dict_of (Some 1%float, None, None); dict_of (Some 2%float, None, None)]
                (DataParser.Parser [])
                (dict_of (Some 2%float, None, None))).
  specialize (H ltac:(vm_compute; reflexivity) ltac:(vm_compute; reflexivity)
                ("ct_clamp"%string, 1%float)).
  destruct H as [H _].
  assert (Hin : In ("ct_clamp"%string, 1%float) (pairs (dict_of (Some 2%float, None, None))))
    by (apply H; cbn; auto).
  cbn in Hin. destruct Hin as [Hin|[]].
  apply (f_equal snd) in Hin. exact (float_2_neq_1 Hin).
Qed.

(** C1, amended: for chunks whose boundaries cut no multi-octet
    character, feeding them one call at a time leaves the parser with the
    same partial-line buffer as feeding the whole in one call; merging the
    outputs of the calls in order, a later present value superseding an
    earlier one, gives the output of the single call; and every (channel,
    value) pair of the single call is a pair of one of the calls. *)
Theorem chunked_feed_agrees (p : DataParser.t) (c : bytes) (rest : list bytes) :
  aligned (c :: rest) ->
  exists q rs r,
    feed p (c :: rest) = (q, Ok rs)
    /\ DataParser.parse p (concat (c :: rest)) = (q, Ok r)
    /\ accumulate rs = r
    /\ (forall kv, In kv (pairs r) -> In kv (flat_map pairs rs)).
Proof.
  intros Hal. destruct (feed_eq rest p c) as (vs & Hfeed & Hvs).
  eexists _, _, _. split; [exact Hfeed|].
  rewrite parse_eq. unfold aligned in Hal. rewrite Hal.
  split; [reflexivity|]. rewrite <- Hvs. split.
  - unfold accumulate. change DataParser.empty_result with (dict_of nothing).
    apply accumulate_dict_of.
  - intros kv. apply pairs_fold.
Qed.

Lemma chunked_feed_agrees_witness :
  aligned scenario_chunks
  /\ exists q rs r,
       feed DataParser.init scenario_chunks = (q, Ok rs)
       /\ DataParser.parse DataParser.init (concat scenario_chunks) = (q, Ok r)
       /\ accumulate rs = r
       /\ (forall kv, In kv (pairs r) -> In kv (flat_map pairs rs)).
Proof.
  split.
  - vm_compute. reflexivity.
  - apply (chunked_feed_agrees DataParser.init
             (line_bytes "CT_A:1.0" ++ line_bytes "HALL1_A:2.0" ++ bytes_of_string "HALL2")
             [line_bytes "_A:3.0"]).
    vm_compute. reflexivity.
Defined.

(** The scenario of the specification: the first call reports the two
    complete lines and keeps [HALL2]; the second reports hall2 alone. *)
Example scenario_outputs :
  feed DataParser.init scenario_chunks
  = (DataParser.Parser [],
     Ok [dict_of (Some 1%float, Some 2%float, None);
         dict_of (None, None, Some 3%float)]).
Proof. vm_compute. reflexivity. Qed.

(** A split inside a two-octet character changes what is decoded, and
    with it what is extracted. *)
Example split_inside_character :
  snd (DataParser.parse DataParser.init
         (bytes_of_string "CT_A" ++ [Byte.xc2; Byte.xa0] ++ line_bytes "1.0"))
  = Ok (dict_of (Some 1%float, None, None))
  /\ feed DataParser.init
       [bytes_of_string "CT_A" ++ [Byte.xc2]; [Byte.xa0] ++ line_bytes "1.0"]
     = (DataParser.Parser [], Ok [dict_of nothing; dict_of nothing]).
Proof. split; vm_compute; reflexivity. Qed.

(** C7, as stated, fails: on the line [CT_A1.5] the tag is directly
    followed by the number, and no value is extracted. *)
Lemma unseparated_token_ignored :
  DataParser.parse DataParser.init (line_bytes "CT_A1.5")
  = (DataParser.Parser [], Ok DataParser.empty_result).
Proof. vm_compute. reflexivity. Qed.

(** C7, amended: the pattern of a channel matches the tag, then one or
    more separator characters (colon, equals or white space), then the
    longest run of digits, full stops and signs.  On the stripped line the
    leftmost match of the pattern decides: when its run converts to a
    number, that number is the channel's value; when its run does not
    convert, the line gives the channel no value, whatever follows on the
    line.  Where the tag is directly followed by the run, with no
    separator, the pattern does not match. *)
Theorem separated_token_extracted :
  (forall key tag line pre seps num rest v result,
      In (key, tag) DataParser.PATTERNS ->
      channels result ->
      strip line = pre ++ tag ++ seps ++ num ++ rest ->
      (forall k, (k < length pre)%nat -> match_at tag (skipn k (strip line)) = None) ->
      seps <> [] -> Forall (fun c => is_sep c = true) seps ->
      num <> [] -> Forall (fun c => is_num c = true) num ->
      ends_token rest ->
      float_of_text num = Ok v ->
      exists r,
        DataParser.scan_line result line = Ok r
        /\ lookup_key key r = Some (Some v))
  /\ (forall key tag line pre seps num rest e result,
        In (key, tag) DataParser.PATTERNS ->
        channels result ->
        strip line = pre ++ tag ++ seps ++ num ++ rest ->
        (forall k, (k < length pre)%nat -> match_at tag (skipn k (strip line)) = None) ->
        seps <> [] -> Forall (fun c => is_sep c = true) seps ->
        num <> [] -> Forall (fun c => is_num c = true) num ->
        ends_token rest ->
        float_of_text num = Raise e ->
        exists r,
          DataParser.scan_line result line = Ok r
          /\ lookup_key key r = lookup_key key result)
  /\ (forall tag num rest,
        num <> [] -> Forall (fun c => is_num c = true) num ->
        match_at tag (tag ++ num ++ rest) = None).
Proof.
  assert (Hsearch : forall tag line pre seps num rest,
             strip line = pre ++ tag ++ seps ++ num ++ rest ->
             (forall k, (k < length pre)%nat ->
                        match_at tag (skipn k (strip line)) = None) ->
             seps <> [] -> Forall (fun c => is_sep c = true) seps ->
             num <> [] -> Forall (fun c => is_num c = true) num ->
             ends_token rest ->
             re_search tag (strip line) = Some num).
  { intros tag line pre seps num rest Hline Hpre Hseps Fseps Hnum Fnum Hrest.
    rewrite Hline in Hpre |- *. rewrite (re_search_skip _ _ _ Hpre).
    apply re_search_here, match_at_token; assumption. }
  assert (Hne : forall key tag line pre tail,
             In (key, tag) DataParser.PATTERNS ->
             strip line = pre ++ tag ++ tail -> strip line <> []).
  { intros key tag line pre tail Hin Hline. rewrite Hline. intros E.
    apply app_eq_nil in E as [_ E]. apply app_eq_nil in E as [E _].
    unfold DataParser.PATTERNS in Hin. cbn [In] in Hin.
    destruct Hin as [Hin|[Hin|[Hin|[]]]];
      injection Hin as _ <-; discriminate E. }
  split; [|split; [|exact match_at_unseparated]].
  - intros key tag line pre seps num rest v result Hin Hch Hline Hpre
           Hseps Fseps Hnum Fnum Hrest Hv.
    apply channels_dict_of in Hch as [u ->].
    rewrite scan_line_dict_of. eexists; split; [reflexivity|].
    assert (Htok : token_value tag (strip line) = Some v).
    { unfold token_value.
      rewrite (Hsearch _ _ _ _ _ _ Hline Hpre Hseps Fseps Hnum Fnum Hrest), Hv.
      reflexivity. }
    pose proof (Hne _ _ _ _ _ Hin Hline) as Hs.
    unfold line_values. destruct (strip line) as [|ch s] eqn:Es; [contradiction|].
    destruct u as [[a b] c].
    unfold DataParser.PATTERNS in Hin. cbn [In] in Hin.
    destruct Hin as [Hin|[Hin|[Hin|[]]]]; injection Hin as <- <-;
      rewrite Htok; cbn [combine3 dict_of over];
      repeat match goal with |- context [token_value ?t ?l] => destruct (token_value t l) end;
      reflexivity.
  - intros key tag line pre seps num rest e result Hin Hch Hline Hpre
           Hseps Fseps Hnum Fnum Hrest Hv.
    apply channels_dict_of in Hch as [u ->].
    rewrite scan_line_dict_of. eexists; split; [reflexivity|].
    assert (Htok : token_value tag (strip line) = None).
    { unfold token_value.
      rewrite (Hsearch _ _ _ _ _ _ Hline Hpre Hseps Fseps Hnum Fnum Hrest), Hv.
      reflexivity. }
    pose proof (Hne _ _ _ _ _ Hin Hline) as Hs.
    unfold line_values. destruct (strip line) as [|ch s] eqn:Es; [contradiction|].
    destruct u as [[a b] c].
    unfold DataParser.PATTERNS in Hin. cbn [In] in Hin.
    destruct Hin as [Hin|[Hin|[Hin|[]]]]; injection Hin as <- <-;
      rewrite Htok; cbn [combine3 dict_of over];
      repeat match goal with |- context [token_value ?t ?l] => destruct (token_value t l) end;
      reflexivity.
Qed.

Lemma separated_token_extracted_witness :
  exists r,
    DataParser.scan_line DataParser.empty_result (text_of_string " x CT_A = -1.5A ") = Ok r
    /\ lookup_key "ct_clamp" r = Some (Some (-1.5)%float).
Proof.
  apply (proj1 separated_token_extracted
           "ct_clamp"%string (text_of_string "CT_A")
           (text_of_string " x CT_A = -1.5A ")
           (text_of_string "x ") (text_of_string " = ") (text_of_string "-1.5")
           (text_of_string "A") (-1.5)%float DataParser.empty_result).
  - cbn. auto.
  - reflexivity.
  - vm_compute. reflexivity.
  - intros k Hk. cbn in Hk.
    destruct k as [|[|k]]; [vm_compute; reflexivity..|lia].
  - discriminate.
  - repeat constructor.
  - discriminate.
  - repeat constructor.
  - reflexivity.
  - vm_compute. reflexivity.
Defined.

(** The leftmost match decides: on [HALL2_A:+- HALL2_A:6] the run [+-]
    does not convert, and the token after it is not looked at. *)
Example first_match_decides :
  DataParser.parse DataParser.init (line_bytes "HALL2_A:+- HALL2_A:6")
  = (DataParser.Parser [], Ok DataParser.empty_result)
  /\ DataParser.parse DataParser.init (line_bytes "HALL2_A:6")
     = (DataParser.Parser [], Ok (dict_of (None, None, Some 6%float))).
Proof. split; vm_compute; reflexivity. Qed.

(** C8: [parse] returns normally on every buffer and every octet
    sequence, with a value or [None] for each channel; decoding with
    replacement never fails, and agrees with strict decoding wherever that
    succeeds; a line that yields no value, whether nothing matches or the
    matched run does not convert, leaves the result as it is, and the lines
    after it are processed as if it were not there. *)
Theorem parse_never_raises :
  (forall p data, exists q r, DataParser.parse p data = (q, Ok r) /\ channels r)
  /\ (forall data, exists s, decode_utf8 Replace data = Ok s)
  /\ (forall data s, decode_utf8 Strict data = Ok s -> decode_utf8 Replace data = Ok s)
  /\ (forall result before bad after,
        noise bad ->
        DataParser.scan_lines result (before ++ bad :: after)
        = DataParser.scan_lines result (before ++ after)).
Proof.
  repeat split.
  - intros p data. rewrite parse_eq. eexists _, _. split; [reflexivity|].
    apply channels_dict_of. eauto.
  - exact decode_replace_total.
  - exact decode_strict_replace.
  - intros result before bad after Hbad.
    rewrite !scan_lines_app. destruct (DataParser.scan_lines result before); [|reflexivity].
    cbn [bind DataParser.scan_lines]. rewrite scan_line_noise by assumption. reflexivity.
Qed.

Lemma parse_never_raises_witness :
  noise (text_of_string "HALL1_A:1.2.3 CT_A=+-")
  /\ DataParser.scan_lines DataParser.empty_result
       [text_of_string "CT_A:1"; text_of_string "HALL1_A:1.2.3 CT_A=+-";
        text_of_string "HALL2_A 2"]
     = DataParser.scan_lines DataParser.empty_result
         [text_of_string "CT_A:1"; text_of_string "HALL2_A 2"].
Proof.
  assert (Hbad : noise (text_of_string "HALL1_A:1.2.3 CT_A=+-")).
  { intros key tag Hin. cbn in Hin.
    destruct Hin as [Hin|[Hin|[Hin|[]]]]; injection Hin as _ <-;
      vm_compute; reflexivity. }
  split; [exact Hbad|].
  exact (proj2 (proj2 (proj2 parse_never_raises))
           DataParser.empty_result [text_of_string "CT_A:1"]
           (text_of_string "HALL1_A:1.2.3 CT_A=+-") [text_of_string "HALL2_A 2"] Hbad).
Defined.

(** Octets that are not UTF-8 make strict decoding fail and decoding with
    replacement put U+FFFD in their place. *)
Example invalid_octets_replaced :
  decode_utf8 Strict [Byte.x41; Byte.xff; Byte.xe2; Byte.x82; Byte.x42] = Raise UnicodeDecodeError
  /\ decode_utf8 Replace [Byte.x41; Byte.xff; Byte.xe2; Byte.x82; Byte.x42]
     = Ok [0x41; REPLACEMENT; REPLACEMENT; 0x42].
Proof. split; reflexivity. Qed.

End ParserClaims.

(* ===================================================================== *)
(** * Scan results                                                        *)
(* ===================================================================== *)

Section StableSort.
Context {A K : Type} (le : K -> K -> bool) (key : A -> K).
Hypothesis le_total : forall a b, le a b = false -> le b a = true.
Hypothesis le_trans : forall a b c, le a b = true -> le b c = true -> le a c = true.

Let R (x y : A) : Prop := le (key x) (key y) = true.

Lemma insert_by_perm (x : A) (l : list A) : Permutation (insert_by le key x l) (x :: l).
Proof.
  induction l as [|y l IH]; simpl; [reflexivity|].
  destruct (le (key x) (key y)); [reflexivity|].
  rewrite IH. apply perm_swap.
Qed.

Lemma sort_by_perm (l : list A) : Permutation (sort_by le key l) l.
Proof.
  induction l as [|x l IH]; simpl; [reflexivity|].
  rewrite insert_by_perm, IH. reflexivity.
Qed.

Lemma insert_by_sorted (x : A) (l : list A) :
  StronglySorted R l -> StronglySorted R (insert_by le key x l).
Proof.
  induction 1 as [|y l Hl IH Hy]; simpl.
  - repeat constructor.
  - destruct (le (key x) (key y)) eqn:E.
    + constructor; [constructor; assumption|].
      constructor; [exact E|].
      eapply List.Forall_impl; [|exact Hy]. intros z Hz. exact (le_trans _ _ _ E Hz).
    + constructor; [exact IH|].
      eapply Permutation_Forall; [symmetry; apply insert_by_perm|].
      constructor; [exact (le_total _ _ E)|exact Hy].
Qed.

Lemma sort_by_sorted (l : list A) : StronglySorted R (sort_by le key l).
Proof.
  induction l as [|x l IH]; simpl; [constructor|].
  apply insert_by_sorted, IH.
Qed.

Lemma sorted_before (l : list A) (x y : A) :
  StronglySorted R l -> before x y l -> R x y.
Proof.
  intros Hs (l1 & l2 & l3 & ->).
  induction l1 as [|z l1 IH]; simpl in Hs.
  - apply StronglySorted_inv in Hs as [_ Hall].
    rewrite List.Forall_forall in Hall. apply Hall.
    apply in_or_app. right. left. reflexivity.
  - apply StronglySorted_inv in Hs as [Hs _]. exact (IH Hs).
Qed.

(** In the sorted list, the key of an element is at most the key of any
    element after it. *)
Lemma sort_by_before (l : list A) (x y : A) :
  before x y (sort_by le key l) -> le (key x) (key y) = true.
Proof. apply sorted_before, sort_by_sorted. Qed.


End StableSort.

Section ScanClaims.
Import BleWorker.

Lemma key_le_total (a b : bool * Z) : key_le a b = false -> key_le b a = true.
Proof.
  unfold key_le. destruct a as [[] x], b as [[] y]; simpl; try congruence;
    rewrite Z.leb_gt, Z.leb_le; lia.
Qed.

Lemma key_le_trans (a b c : bool * Z) :
  key_le a b = true -> key_le b c = true -> key_le a c = true.
Proof.
  unfold key_le. destruct a as [[] x], b as [[] y], c as [[] z]; simpl;
    try congruence; rewrite !Z.leb_le; lia.
Qed.

Lemma unnamed_key (x : FoundDevice) : fst (sort_key x) = true <-> unnamed x.
Proof. unfold sort_key, unnamed. simpl. apply bool_decide_eq_true. Qed.

(** What the order of the keys says about two devices. *)
Lemma key_le_order (x y : FoundDevice) :
  key_le (sort_key x) (sort_key y) = true ->
  (unnamed x -> unnamed y)
  /\ (same_group x y -> (rssi_or_sentinel (rssi y) <= rssi_or_sentinel (rssi x))%Z).
Proof.
  unfold same_group. rewrite <- !unnamed_key. unfold key_le.
  destruct (sort_key x) as [bx kx] eqn:Ex, (sort_key y) as [by' ky] eqn:Ey.
  assert (Hx : kx = (- rssi_or_sentinel (rssi x))%Z) by (unfold sort_key in Ex; congruence).
  assert (Hy : ky = (- rssi_or_sentinel (rssi y))%Z) by (unfold sort_key in Ey; congruence).
  cbn [fst snd]. destruct bx, by'; try rewrite Z.leb_le; intros H; split;
    try congruence; try tauto; try lia.
Qed.

Lemma delivered_before (lower : text -> text) (name_filter : text)
      (devices : list BLEDevice) (x y : FoundDevice) :
  before x y (delivered lower name_filter devices) ->
  key_le (sort_key x) (sort_key y) = true.
Proof.
  unfold delivered, sort_found.
  apply sort_by_before; [exact key_le_total|exact key_le_trans].
Qed.

Lemma rssi_or_sentinel_nonzero (a : Z) : a <> 0%Z -> rssi_or_sentinel (Some a) = a.
Proof. intros Ha. unfold rssi_or_sentinel. apply Z.eqb_neq in Ha. rewrite Ha. reflexivity. Qed.

(** C3, as stated, fails: two named devices, both at -40, are delivered
    one after the other, and their strengths do not strictly descend. *)
Lemma tied_strengths_not_strict :
  ~ strictly_ordered (delivered lower_ascii [] tied_devices).
Proof.
  intros H.
  destruct (H (found "Alpha" "A1" (Some (-40)%Z)) (found "Beta" "B1" (Some (-40)%Z)))
    as [_ Hs].
  - exists [], [], []. vm_compute. reflexivity.
  - assert (Hg : same_group (found "Alpha" "A1" (Some (-40)%Z))
                            (found "Beta" "B1" (Some (-40)%Z)))
      by (split; intros E; vm_compute in E; discriminate E).
    specialize (Hs Hg). cbn in Hs. lia.
Qed.

(** C3, amended: the [scan_result] event carries the collected devices,
    rearranged so that every named device stands before every unnamed
    one and that, within each of the two groups, signal strengths that are
    present and not 0 never ascend (equal strengths may follow one
    another), a missing strength taking the place of -999.  Alpha at -40,
    an unnamed device at -30 and Beta at -60 are delivered as Alpha, Beta,
    unnamed. *)
Theorem scan_result_order :
  (forall lower name_filter devices w,
      events (_scan_and_post lower name_filter (Returns devices) w)
      = events w ++ [scan_result (delivered lower name_filter devices)]
      /\ Permutation (delivered lower name_filter devices)
                     (collect lower name_filter devices))
  /\ (forall lower name_filter devices x y,
        before x y (delivered lower name_filter devices) ->
        (unnamed x -> unnamed y)
        /\ (same_group x y ->
            (forall a b, rssi x = Some a -> rssi y = Some b ->
                         a <> 0 -> b <> 0 -> b <= a)
            /\ (forall b, rssi x = None -> rssi y = Some b -> b <> 0 -> b <= -999)
            /\ (forall a, rssi x = Some a -> rssi y = None -> a <> 0 -> -999 <= a)))%Z
  /\ (forall lower,
        delivered lower [] example_devices
        = [ found "Alpha" "A1" (Some (-40)%Z);
            found "Beta" "B1" (Some (-60)%Z);
            found "<unknown>" "U1" (Some (-30)%Z) ]).
Proof.
  split; [|split].
  - intros lower name_filter devices w. split; [reflexivity|].
    apply sort_by_perm.
  - intros lower name_filter devices x y Hb.
    apply delivered_before, key_le_order in Hb as [Hn Hs].
    split; [exact Hn|]. intros Hg. specialize (Hs Hg).
    repeat split.
    + intros a b Hx Hy Ha Hb. rewrite Hx, Hy, !rssi_or_sentinel_nonzero in Hs by assumption.
      exact Hs.
    + intros b Hx Hy Hb. rewrite Hx, Hy, rssi_or_sentinel_nonzero in Hs by assumption.
      exact Hs.
    + intros a Hx Hy Ha. rewrite Hx, Hy, rssi_or_sentinel_nonzero in Hs by assumption.
      exact Hs.
  - intros lower. reflexivity.
Qed.

Lemma scan_result_order_witness :
  before (found "Alpha" "A1" (Some (-40)%Z)) (found "Beta" "B1" (Some (-60)%Z))
         (delivered lower_ascii [] example_devices)
  /\ (-60 <= -40)%Z.
Proof.
  assert (Hb : before (found "Alpha" "A1" (Some (-40)%Z)) (found "Beta" "B1" (Some (-60)%Z))
                      (delivered lower_ascii [] example_devices)).
  { exists [], [], [found "<unknown>" "U1" (Some (-30)%Z)]. vm_compute. reflexivity. }
  split; [exact Hb|].
  refine (proj1 (proj2 (proj1 (proj2 scan_result_order) lower_ascii [] example_devices
                              _ _ Hb) _)
                (-40)%Z (-60)%Z eq_refl eq_refl _ _).
  - split; intros E; vm_compute in E; discriminate E.
  - lia.
  - lia.
Defined.




(** The devices of the counterexample, as they are delivered. *)
Example zero_strength_between :
  delivered lower_ascii [] below_sentinel_devices
  = [ found "Alpha" "A1" (Some 0%Z); found "Gamma" "G1" None;
      found "Beta" "B1" (Some (-1000)%Z) ].
Proof. vm_compute. reflexivity. Qed.

(** A device at 0 is delivered after a device of its group at -40. *)
Example zero_strength_last :
  delivered lower_ascii []
            [ device (Some "Alpha"%string) "A1" (Some 0%Z);
              device (Some "Beta"%string) "B1" (Some (-40)%Z) ]
  = [ found "Beta" "B1" (Some (-40)%Z); found "Alpha" "A1" (Some 0%Z) ].
Proof. vm_compute. reflexivity. Qed.

End ScanClaims.

(* ===================================================================== *)
(** * The link session                                                    *)
(* ===================================================================== *)

Section LinkClaims.
Import BleWorker.
Variable air : radio.

(** Teardown swallows every error, forgets the client and posts nothing. *)
Lemma disconnect_silent_spec (w : t) :
  snd (_disconnect_silent air w) = Returns tt
  /\ events (fst (_disconnect_silent air w)) = events w
  /\ _client (fst (_disconnect_silent air w)) = None.
Proof.
  unfold _disconnect_silent. destruct (_client w) as [a|] eqn:E.
  - destruct (stop_notify_returns (air a)), (disconnect_returns (air a)); auto.
  - auto.
Qed.

(** Teardown closes the link of the client the worker holds, and no
    other. *)
Lemma disconnect_silent_links (w : t) :
  open_links (fst (_disconnect_silent air w))
  = match _client w with
    | Some a =>
      match disconnect_returns (air a) with
      | Returns _ => open_links w ∖ {[a]}
      | Raises _ => open_links w
      end
    | None => open_links w
    end.
Proof.
  unfold _disconnect_silent. destruct (_client w) as [a|]; [|reflexivity].
  destruct (stop_notify_returns (air a)), (disconnect_returns (air a)); reflexivity.
Qed.

Lemma connect_body_failure (addr : string) (w w' : t) (f : failure) :
  connect_body air addr w = (w', Raises f) ->
  events w' = events w /\ _client w' = None.
Proof.
  unfold connect_body.
  destruct (disconnect_silent_spec w) as (Hr & He & Hc).
  destruct (_disconnect_silent air w) as [w1 r]. cbn [fst snd] in *. subst r.
  repeat match goal with
         | |- context [match ?x with _ => _ end] => destruct x
         end; intros H; inversion H; subst; auto.
Qed.

(** [_connect_and_post] always returns.  When every step succeeded it has
    posted the status and then [connected=True]; when a step failed it has
    posted the error with its cause and then [connected=False]. *)
Lemma connect_events (addr : string) (w : t) :
  snd (_connect_and_post air addr w) = Returns tt
  /\ match snd (connect_body air addr w) with
     | Returns _ =>
       events (fst (_connect_and_post air addr w))
       = events w ++ [status ("Connected to " +:+ addr); connected true]
       /\ _client (fst (_connect_and_post air addr w)) = Some addr
     | Raises f =>
       events (fst (_connect_and_post air addr w))
       = events w ++ [error ("Connect failed: " +:+ str_of f); connected false]
       /\ _client (fst (_connect_and_post air addr w)) = None
     end.
Proof.
  unfold _connect_and_post.
  destruct (connect_body air addr w) as [w1 [[]|f]] eqn:E; cbn [fst snd].
  - split; [reflexivity|]. revert E. unfold connect_body.
    destruct (disconnect_silent_spec w) as (Hr & He & Hc).
    destruct (_disconnect_silent air w) as [w0 r]. cbn [fst snd] in *. subst r.
    repeat match goal with
           | |- context [match ?x with _ => _ end] => destruct x
           end; intros H'; inversion H'; subst; cbn; rewrite He, <- List.app_assoc; auto.
  - apply connect_body_failure in E as [He Hc].
    destruct (disconnect_silent_spec (put (error ("Connect failed: " +:+ str_of f)) w1))
      as (Hr & He' & Hc').
    destruct (_disconnect_silent air _) as [w2 r]. cbn [fst snd] in *. subst r.
    split; [reflexivity|]. cbn. rewrite He'. cbn. rewrite He, <- List.app_assoc.
    split; [reflexivity|exact Hc'].
Qed.

(** The teardown of the failure path finds no client to tear down: a
    link the failed attempt had opened stays open. *)
Lemma failed_connect_keeps_link (addr : string) (w w1 : t) (f : failure) (ok : bool) :
  connect_body air addr w = (w1, Raises f) ->
  connect_returns (air addr) = Returns ok ->
  link_up (air addr) = true ->
  addr ∈ open_links (fst (_connect_and_post air addr w)).
Proof.
  intros E Hc Hup. unfold _connect_and_post. rewrite E.
  pose proof (connect_body_failure _ _ _ _ E) as [_ Hnone].
  assert (Hlink : addr ∈ open_links w1).
  { revert E. unfold connect_body.
    pose proof (disconnect_silent_spec w) as (Hr & _).
    destruct (_disconnect_silent air w) as [w0 r]. cbn [snd] in Hr. subst r.
    rewrite Hc, Hup.
    repeat match goal with
           | |- context [match ?x with _ => _ end] => destruct x
           end; intros H; inversion H; subst; cbn; set_solver. }
  pose proof (disconnect_silent_links (put (error ("Connect failed: " +:+ str_of f)) w1)) as Hl.
  pose proof (disconnect_silent_spec (put (error ("Connect failed: " +:+ str_of f)) w1)) as (Hr & _).
  destruct (_disconnect_silent air _) as [w2 r]. cbn [fst snd] in *. subst r.
  cbn in Hl. rewrite Hnone in Hl. cbn. rewrite Hl. exact Hlink.
Qed.

End LinkClaims.

(** C2 at a failing input: the peripheral accepts the connection and lacks
    the UART service.  The worker posts the error and [connected=False], and
    its teardown, which looks at the client it holds and holds none, leaves
    the new link open. *)
Theorem failed_connect_leaves_link_open :
  let w := fst (BleWorker._connect_and_post (fun _ => without_nus) "AA:BB" BleWorker.init) in
  BleWorker.events w
  = [ BleWorker.error
        "Connect failed: Device missing NUS service 6e400001-b5a3-f393-e0a9-e50e24dcca9e";
      BleWorker.connected false ]
  /\ BleWorker._client w = None
  /\ "AA:BB" ∈ BleWorker.open_links w.
Proof.
  cbn. split; [reflexivity|]. split; [reflexivity|]. set_solver.
Qed.

(** A client whose [get_services] cannot be awaited: the worker falls
    back to the plain call and connects. *)
Example get_services_fallback_connects :
  let w := fst (BleWorker._connect_and_post (fun _ => plain_get_services) "AA:BB"
                                            BleWorker.init) in
  BleWorker.events w
  = [ BleWorker.status "Connected to AA:BB"; BleWorker.connected true ]
  /\ BleWorker._client w = Some "AA:BB"%string.
Proof. split; reflexivity. Qed.

(* ===================================================================== *)
(** * The sampling pipeline and the state tracker                         *)
(* ===================================================================== *)

Section PipelineClaims.
Import LaundryIQLogger.

Lemma lookup_setitem {V} (k k' : string) (v : V) (d : dict V) :
  lookup_key k (setitem k' v d) = if String.eqb k k' then Some v else lookup_key k d.
Proof.
  induction d as [|[k0 v0] d IH]; simpl.
  - destruct (String.eqb k k'); reflexivity.
  - destruct (String.eqb_spec k' k0) as [->|Hne]; simpl.
    + destruct (String.eqb k k0); reflexivity.
    + rewrite IH. destruct (String.eqb_spec k k0) as [->|Hne'].
      * apply String.eqb_neq in Hne. rewrite String.eqb_sym in Hne.
        rewrite Hne. reflexivity.
      * reflexivity.
Qed.

(** A channel for which the parser output holds no value keeps what it
    had. *)
Lemma merge_absent (parsed pending : dict (option float)) (k : string) :
  (forall v, ~ In (k, Some v) parsed) ->
  lookup_key k (merge_parsed pending parsed) = lookup_key k pending.
Proof.
  unfold merge_parsed, items. revert pending.
  induction parsed as [|[k0 [v0|]] parsed IH]; intros pending Hno; cbn [fold_left fst snd].
  - reflexivity.
  - rewrite IH by (intros v Hv; apply (Hno v); right; exact Hv).
    rewrite lookup_setitem. destruct (String.eqb_spec k k0) as [->|]; [|reflexivity].
    exfalso. apply (Hno v0). left. reflexivity.
  - apply IH. intros v Hv. apply (Hno v). right. exact Hv.
Qed.

(** A channel that had a value has one after the merge. *)
Lemma merge_keeps_present (parsed pending : dict (option float)) (k : string) (v : float) :
  lookup_key k pending = Some (Some v) ->
  exists v', lookup_key k (merge_parsed pending parsed) = Some (Some v').
Proof.
  unfold merge_parsed, items. revert pending v.
  induction parsed as [|[k0 [v0|]] parsed IH]; intros pending v Hv; cbn [fold_left fst snd].
  - eauto.
  - destruct (String.eqb k k0) eqn:E.
    + apply (IH _ v0). rewrite lookup_setitem, E. reflexivity.
    + apply (IH _ v). rewrite lookup_setitem, E. exact Hv.
  - apply (IH _ v). exact Hv.
Qed.

Ltac step_binds :=
  repeat match goal with
         | |- context [bind ?x _] => destruct x; cbn [bind]
         end.

(** A sample emission leaves the pending reading, the calibration factors
    and the state as they are, and the history either as it is or with one
    sample appended, however the call ends. *)
Lemma process_sample_frame (ts : float) (io : csv_write) (self : t) :
  pending_data (fst (_process_sample ts io self)) = pending_data self
  /\ calibration_factors (fst (_process_sample ts io self)) = calibration_factors self
  /\ current_state (fst (_process_sample ts io self)) = current_state self
  /\ logging_start_time (fst (_process_sample ts io self)) = logging_start_time self
  /\ (data_buffer (fst (_process_sample ts io self)) = data_buffer self
      \/ exists s, timestamp s = ts
                   /\ data_buffer (fst (_process_sample ts io self))
                      = deque_append s (data_buffer self)).
Proof.
  unfold _process_sample.
  destruct (logging_start_time self) as [t0|] eqn:Et; [|cbn; rewrite Et; auto 6].
  destruct (float_truthy t0); cbn [negb]; [|cbn; rewrite Et; auto 6].
  step_binds; cbn; try (rewrite Et; auto 6);
    destruct (csv_file self); try destruct io; cbn;
    (repeat split; try reflexivity; try exact Et);
    right; eexists; (split; [|reflexivity]); reflexivity.
Qed.

(** The emission of a session that has started: the sample is appended
    to the history whatever the CSV block does; the row enters the open
    file unless the block raises before it is written; the call ends as the
    block does. *)
Lemma process_sample_emits (ts t0 : float) (io : csv_write) (self : t)
      (pend : triple) (f1 f2 f3 : float) :
  logging_start_time self = Some t0 ->
  float_truthy t0 = true ->
  pending_data self = dict_of pend ->
  calibration_factors self
  = [("ct_clamp"%string, f1); ("hall1"%string, f2); ("hall2"%string, f3)] ->
  data_buffer (fst (_process_sample ts io self))
  = deque_append (sample_of self ts t0 pend f1 f2 f3) (data_buffer self)
  /\ csv_file (fst (_process_sample ts io self))
     = option_map (fun rows => rows_after io rows (sample_of self ts t0 pend f1 f2 f3))
                  (csv_file self)
  /\ snd (_process_sample ts io self)
     = match csv_file self with
       | Some _ => csv_ends io
       | None => Ok tt
       end.
Proof.
  intros Ht0 Htr Hp Hf. unfold _process_sample, calibrate.
  rewrite Ht0, Htr, Hp, Hf. destruct pend as [[[a|] [b|]] [c|]];
    cbn; destruct (csv_file self); try destruct io; cbn; repeat split.
Qed.

Lemma store_factor_frame (k : string) (entry : result float) (self self' : t) :
  store_factor k entry self = Ok self' ->
  data_buffer self' = data_buffer self /\ pending_data self' = pending_data self.
Proof.
  unfold store_factor. destruct entry as [v|[]]; intros H; inversion H; auto.
Qed.

Lemma update_calibration_frame (e1 e2 e3 : result float) (self self' : t) :
  _update_calibration e1 e2 e3 self = Ok self' ->
  data_buffer self' = data_buffer self /\ pending_data self' = pending_data self.
Proof.
  unfold _update_calibration.
  destruct (store_factor "ct_clamp" e1 self) as [s1|] eqn:E1; [|discriminate].
  cbn [bind].
  destruct (store_factor "hall1" e2 s1) as [s2|] eqn:E2; [|discriminate].
  cbn [bind]. intros E3.
  apply store_factor_frame in E1 as [A1 B1], E2 as [A2 B2], E3 as [A3 B3].
  split; congruence.
Qed.

(** What an [rx] event leaves as pending reading: the merge of the
    parser output into the reading it found. *)
Lemma poll_events_rx_pending (data : bytes) (now : float) (io : csv_write) (self : t) :
  pending_data (fst (_poll_events_rx data now io self))
  = merge_parsed (pending_data self)
                 (dict_of (snd (run_text (DataParser._buffer (parser self)) (decoded data)))).
Proof.
  unfold _poll_events_rx. rewrite parse_eq.
  destruct (_ && _); [|reflexivity].
  pose proof (process_sample_frame now io
                (after_parse
                   (DataParser.Parser
                      (fst (run_text (DataParser._buffer (parser self)) (decoded data))))
                   (merge_parsed (pending_data self)
                      (dict_of (snd (run_text (DataParser._buffer (parser self))
                                              (decoded data))))) self)) as [Hp _].
  destruct (_process_sample now io _) as [s2 [[]|e]]; cbn [fst] in *; exact Hp.
Qed.

(** C4: an emission multiplies each present pending value by the factor
    of its channel and stores the products in the sample, leaving the
    pending values as they were, and it returns normally when no file is
    open or the row is written; with factor 2.0 and pending value 1.5 the
    sample holds 3.0, while the sample emitted before the factor was set
    still holds 1.5; an update of the factors leaves the history, and so
    every sample in it, unchanged. *)
Theorem calibration_applied_at_emission :
  (forall ts io t0 self pend f1 f2 f3,
      logging_start_time self = Some t0 ->
      float_truthy t0 = true ->
      pending_data self = dict_of pend ->
      calibration_factors self
      = [("ct_clamp"%string, f1); ("hall1"%string, f2); ("hall2"%string, f3)] ->
      data_buffer (fst (_process_sample ts io self))
      = deque_append (sample_of self ts t0 pend f1 f2 f3) (data_buffer self)
      /\ pending_data (fst (_process_sample ts io self)) = pending_data self
      /\ (csv_file self = None \/ io = RowWritten ->
          snd (_process_sample ts io self) = Ok tt))
  /\ (lookup_key "ct_clamp" (calibration_factors calibrated_session) = Some 2%float
      /\ lookup_key "ct_clamp" (pending_data calibrated_session) = Some (Some 1.5%float)
      /\ map ct_clamp (elems (data_buffer first_sample_taken)) = [Some 1.5%float]
      /\ exists self',
           _process_sample 100.5%float RowWritten calibrated_session = (self', Ok tt)
           /\ map ct_clamp (elems (data_buffer self')) = [Some 1.5%float; Some 3%float])
  /\ (forall e1 e2 e3 self self',
        _update_calibration e1 e2 e3 self = Ok self' ->
        data_buffer self' = data_buffer self).
Proof.
  split; [|split].
  - intros ts io t0 self pend f1 f2 f3 Ht0 Htr Hp Hf.
    destruct (process_sample_emits ts t0 io self pend f1 f2 f3 Ht0 Htr Hp Hf)
      as (Hb & _ & Hend).
    split; [exact Hb|]. split; [apply process_sample_frame|].
    rewrite Hend. intros [->| ->]; [reflexivity|].
    destruct (csv_file self); reflexivity.
  - split; [reflexivity|]. split; [reflexivity|]. split; [reflexivity|].
    eexists. split; vm_compute; reflexivity.
  - intros e1 e2 e3 self self' H. apply (update_calibration_frame _ _ _ _ _ H).
Qed.

Lemma calibration_applied_at_emission_witness :
  data_buffer (fst (_process_sample 100.5%float RowWritten calibrated_session))
  = deque_append
      (sample_of calibrated_session 100.5%float 100%float
                 (Some 1.5%float, None, None) 2%float 1%float 1%float)
      (data_buffer calibrated_session)
  /\ pending_data (fst (_process_sample 100.5%float RowWritten calibrated_session))
     = pending_data calibrated_session
  /\ (csv_file calibrated_session = None \/ RowWritten = RowWritten ->
      snd (_process_sample 100.5%float RowWritten calibrated_session) = Ok tt).
Proof.
  apply (proj1 calibration_applied_at_emission 100.5%float RowWritten 100%float
               calibrated_session (Some 1.5%float, None, None) 2%float 1%float 1%float);
    vm_compute; reflexivity.
Defined.

(** C5: merging a parser output leaves a channel for which the output
    holds no value with what it had, and a channel that had a value with a
    value; an emission leaves the pending reading as it is, however it
    ends; so a channel that has a value before an [rx] event has one after
    it, the pending reading after the event being the merge of the parser
    output into the reading before it. *)
Theorem pending_values_persist :
  (forall pending parsed k,
      (forall v, ~ In (k, Some v) parsed) ->
      lookup_key k (merge_parsed pending parsed) = lookup_key k pending)
  /\ (forall u v, merge_parsed (dict_of u) (dict_of v) = dict_of (combine3 u v))
  /\ (forall ts io self,
        pending_data (fst (_process_sample ts io self)) = pending_data self)
  /\ (forall data now io self k v,
        lookup_key k (pending_data self) = Some (Some v) ->
        exists v',
          lookup_key k (pending_data (fst (_poll_events_rx data now io self)))
          = Some (Some v'))
  /\ (forall data now io self,
        pending_data (fst (_poll_events_rx data now io self))
        = merge_parsed (pending_data self)
            (dict_of (snd (run_text (DataParser._buffer (parser self)) (decoded data))))).
Proof.
  split; [|split; [|split; [|split]]].
  - intros pending parsed k. apply merge_absent.
  - exact merge_parsed_dict_of.
  - intros ts io self. apply process_sample_frame.
  - intros data now io self k v Hv. rewrite poll_events_rx_pending.
    apply (merge_keeps_present _ _ _ _ Hv).
  - exact poll_events_rx_pending.
Qed.

Lemma pending_values_persist_witness :
  exists v', lookup_key "ct_clamp" (pending_data calibrated_session_later) = Some (Some v').
Proof.
  apply (proj1 (proj2 (proj2 (proj2 pending_values_persist)))
               (line_bytes "HALL1_A:2") 100.5%float RowWritten calibrated_session
               "ct_clamp"%string 1.5%float);
    vm_compute; reflexivity.
Defined.

(** The pending reading of that session: the CT clamp value received
    earlier is still there beside the new Hall value. *)
Example pending_after_second_line :
  pending_data calibrated_session_later
  = dict_of (Some 1.5%float, Some 2%float, None).
Proof. vm_compute. reflexivity. Qed.

Lemma append_all_elems {A} (n : nat) (xs init : list A) :
  (0 < n)%nat -> (length init <= n)%nat ->
  fold_left (fun d s => deque_append s d) xs (Deque (Some n) init)
  = Deque (Some n) (skipn (length (init ++ xs) - n) (init ++ xs)).
Proof.
  intros Hn. revert init. induction xs as [|x xs IH]; intros init Hinit.
  - rewrite app_nil_r. replace (length init - n)%nat with 0%nat by lia. reflexivity.
  - cbn [fold_left]. unfold deque_append at 2. cbn [elems maxlen].
    rewrite length_app. cbn [length].
    destruct (Nat.ltb_spec n (length init + 1)) as [Hfull|Hroom].
    + destruct init as [|a init]; [simpl in *; lia|].
      cbn [app tl]. rewrite IH by (rewrite length_app; simpl in *; lia).
      f_equal. rewrite <- List.app_assoc. cbn [app].
      rewrite !length_app. cbn [length] in *. rewrite length_app. cbn [length].
      replace (length init + S (length xs) - n)%nat with (length xs) by lia.
      replace (S (length init + S (length xs)) - n)%nat with (S (length xs)) by lia.
      reflexivity.
    + rewrite IH by (rewrite length_app; simpl; lia).
      rewrite <- List.app_assoc. reflexivity.
Qed.

(** Emissions of a session that has started append their samples to the
    history one after the other, whatever becomes of their rows. *)
Lemma emit_all_appends (stamps : list (float * csv_write)) (t0 : float) (self : t)
      (pend : triple) (f1 f2 f3 : float) :
  logging_start_time self = Some t0 ->
  float_truthy t0 = true ->
  pending_data self = dict_of pend ->
  calibration_factors self
  = [("ct_clamp"%string, f1); ("hall1"%string, f2); ("hall2"%string, f3)] ->
  data_buffer (emit_all stamps self)
  = append_all (map (fun x => sample_of self (fst x) t0 pend f1 f2 f3) stamps)
               (data_buffer self).
Proof.
  revert self. induction stamps as [|[ts io] stamps IH]; intros self Ht0 Htr Hp Hf;
    [reflexivity|].
  unfold emit_all, append_all in *. cbn [fold_left map fst snd].
  destruct (process_sample_emits ts t0 io self pend f1 f2 f3 Ht0 Htr Hp Hf) as (Hb & _).
  destruct (process_sample_frame ts io self) as (Ep & Ef & Es & Et & _).
  rewrite IH by congruence. rewrite Hb. f_equal.
  apply map_ext. intros x. unfold sample_of. rewrite Es. reflexivity.
Qed.

(** C6: 10,001 emissions of a session that starts with an empty history
    leave 10,000 samples in it: those of all the emissions but the first,
    in the order of the emissions; and in general the history holds the
    latest 10,000 of the samples it held and those emitted since. *)
Theorem history_keeps_latest :
  (forall stamps t0 self pend f1 f2 f3,
      logging_start_time self = Some t0 ->
      float_truthy t0 = true ->
      pending_data self = dict_of pend ->
      calibration_factors self
      = [("ct_clamp"%string, f1); ("hall1"%string, f2); ("hall2"%string, f3)] ->
      maxlen (data_buffer self) = Some CAPACITY ->
      elems (data_buffer self) = [] ->
      N.of_nat (length stamps) = 10001 ->
      N.of_nat (length (elems (data_buffer (emit_all stamps self)))) = 10000
      /\ elems (data_buffer (emit_all stamps self))
         = tl (map (fun x => sample_of self (fst x) t0 pend f1 f2 f3) stamps))
  /\ (forall stamps t0 self pend f1 f2 f3,
        logging_start_time self = Some t0 ->
        float_truthy t0 = true ->
        pending_data self = dict_of pend ->
        calibration_factors self
        = [("ct_clamp"%string, f1); ("hall1"%string, f2); ("hall2"%string, f3)] ->
        maxlen (data_buffer self) = Some CAPACITY ->
        (length (elems (data_buffer self)) <= CAPACITY)%nat ->
        elems (data_buffer (emit_all stamps self))
        = latest (elems (data_buffer self)
                  ++ map (fun x => sample_of self (fst x) t0 pend f1 f2 f3) stamps)).
Proof.
  assert (Hgen : forall stamps t0 self pend f1 f2 f3,
             logging_start_time self = Some t0 ->
             float_truthy t0 = true ->
             pending_data self = dict_of pend ->
             calibration_factors self
             = [("ct_clamp"%string, f1); ("hall1"%string, f2); ("hall2"%string, f3)] ->
             maxlen (data_buffer self) = Some CAPACITY ->
             (length (elems (data_buffer self)) <= CAPACITY)%nat ->
             elems (data_buffer (emit_all stamps self))
             = latest (elems (data_buffer self)
                       ++ map (fun x => sample_of self (fst x) t0 pend f1 f2 f3) stamps)).
  { intros stamps t0 self pend f1 f2 f3 Ht0 Htr Hp Hf Hm Hl.
    rewrite (emit_all_appends stamps t0 self pend f1 f2 f3 Ht0 Htr Hp Hf).
    destruct (data_buffer self) as [m e]. cbn [maxlen elems] in *. subst m.
    unfold append_all. rewrite append_all_elems by (unfold CAPACITY in *; lia).
    reflexivity. }
  split; [|exact Hgen].
  intros stamps t0 self pend f1 f2 f3 Ht0 Htr Hp Hf Hm He Hlen.
  rewrite (Hgen stamps t0 self pend f1 f2 f3 Ht0 Htr Hp Hf Hm)
    by (rewrite He; cbn [length]; lia).
  rewrite He. cbn [app]. unfold latest, CAPACITY. rewrite length_map.
  replace (length stamps - N.to_nat 10000)%nat with 1%nat by lia.
  destruct stamps as [|x stamps]; [cbn [length] in Hlen; lia|].
  cbn [map skipn tl length] in *. rewrite skipn_O, length_map. split; [lia|reflexivity].
Qed.

Lemma history_keeps_latest_witness :
  N.of_nat (length (elems (data_buffer (emit_all many_stamps fresh_session)))) = 10000
  /\ elems (data_buffer (emit_all many_stamps fresh_session))
     = tl (map (fun x => sample_of fresh_session (fst x) 100%float (None, None, None)
                                   1%float 1%float 1%float)
               many_stamps).
Proof.
  apply (proj1 history_keeps_latest many_stamps 100%float fresh_session
               (None, None, None) 1%float 1%float 1%float);
    vm_compute; reflexivity.
Defined.

(** C9: a state button pressed while no session is logging returns
    normally, adds the line that says the change was ignored to the log,
    and leaves every other field as it was. *)
Theorem state_change_ignored_when_idle (new_state : string) (now1 now2 : float) (self : t) :
  is_logging self = false ->
  exists self',
    _on_state_button new_state now1 now2 self = Ok self'
    /\ log_text self' = log_text self ++ [IGNORED]
    /\ current_state self' = current_state self
    /\ current_state_var self' = current_state_var self
    /\ state_changes self' = state_changes self
    /\ is_logging self' = false
    /\ logging_start_time self' = logging_start_time self
    /\ data_buffer self' = data_buffer self
    /\ csv_file self' = csv_file self
    /\ pending_data self' = pending_data self
    /\ calibration_factors self' = calibration_factors self
    /\ last_sample_time self' = last_sample_time self
    /\ sample_interval self' = sample_interval self
    /\ parser self' = parser self
    /\ export_btn self' = export_btn self.
Proof.
  intros Hidle. unfold _on_state_button. rewrite Hidle. cbn [negb].
  eexists. split; [reflexivity|]. cbn. repeat split. exact Hidle.
Qed.

Lemma state_change_ignored_when_idle_witness :
  exists self',
    _on_state_button "Wash" 10%float 10%float init = Ok self'
    /\ log_text self' = log_text init ++ [IGNORED]
    /\ current_state self' = current_state init
    /\ current_state_var self' = current_state_var init
    /\ state_changes self' = state_changes init
    /\ is_logging self' = false
    /\ logging_start_time self' = logging_start_time init
    /\ data_buffer self' = data_buffer init
    /\ csv_file self' = csv_file init
    /\ pending_data self' = pending_data init
    /\ calibration_factors self' = calibration_factors init
    /\ last_sample_time self' = last_sample_time init
    /\ sample_interval self' = sample_interval init
    /\ parser self' = parser init
    /\ export_btn self' = export_btn init.
Proof.
  apply (state_change_ignored_when_idle "Wash" 10%float 10%float init). reflexivity.
Defined.

(** While a session is logging the same button changes the state. *)
Example state_change_while_logging :
  exists self',
    _on_state_button "Wash" 103%float 103%float calibrated_session = Ok self'
    /\ current_state self' = "Wash"%string
    /\ map sc_state (state_changes self') = ["Wash"%string].
Proof. eexists. split; [reflexivity|]. split; reflexivity. Qed.

End PipelineClaims.

(* ===================================================================== *)
(** * More on the stream parser                                           *)
(* ===================================================================== *)

Section ParserInvariants.

Lemma parse_completed (p : DataParser.t) (data : bytes) :
  DataParser.parse p data
  = (DataParser.Parser (List.last (split_lines (DataParser._buffer p ++ decoded data)) []),
     DataParser.scan_lines DataParser.empty_result (completed p data)).
Proof.
  unfold DataParser.parse, completed. rewrite decoded_eq. cbv zeta.
  rewrite (last_item_ok _ ([] : text)) by apply split_lines_nonempty. reflexivity.
Qed.

Lemma join_lines_cons (l : text) (ls : list text) :
  join_lines (l :: ls) = l ++ LF :: join_lines ls.
Proof. unfold join_lines. cbn [flat_map]. rewrite <- List.app_assoc. reflexivity. Qed.

Lemma split_join (s : text) :
  join_lines (removelast (split_lines s)) ++ List.last (split_lines s) [] = s.
Proof.
  induction s as [|c s IH]; [reflexivity|]. simpl split_lines.
  pose proof (split_lines_nonempty s) as Hs.
  destruct (N.eqb_spec c LF) as [->|Hc].
  - destruct (split_lines s) as [|h t]; [now elim Hs|].
    change (removelast ([] :: h :: t)) with ([] :: removelast (h :: t)).
    change (List.last ([] :: h :: t) []) with (List.last (h :: t) ([] : text)).
    rewrite join_lines_cons. cbn [app]. rewrite IH. reflexivity.
  - destruct (split_lines s) as [|h t]; [now elim Hs|].
    destruct t as [|h' t].
    + cbn in *. rewrite <- IH. reflexivity.
    + change (removelast ((c :: h) :: h' :: t)) with ((c :: h) :: removelast (h' :: t)).
      change (removelast (h :: h' :: t)) with (h :: removelast (h' :: t)) in IH.
      change (List.last ((c :: h) :: h' :: t) []) with (List.last (h' :: t) ([] : text)).
      change (List.last (h :: h' :: t) []) with (List.last (h' :: t) ([] : text)) in IH.
      rewrite join_lines_cons in *. rewrite <- List.app_assoc in *.
      cbn [app] in *. rewrite IH. reflexivity.
Qed.

Lemma completed_count (s : text) :
  length (removelast (split_lines s)) = count_occ N.eq_dec s LF.
Proof.
  induction s as [|c s IH]; [reflexivity|]. simpl split_lines.
  pose proof (split_lines_nonempty s) as Hs. cbn [count_occ].
  destruct (N.eqb_spec c LF) as [->|Hc].
  - destruct (N.eq_dec LF LF) as [_|H]; [|now elim H].
    destruct (split_lines s) as [|h t]; [now elim Hs|].
    change (removelast ([] :: h :: t)) with ([] :: removelast (h :: t)).
    cbn [length]. rewrite IH. reflexivity.
  - destruct (N.eq_dec c LF) as [H|_]; [now elim Hc|].
    destruct (split_lines s) as [|h t]; [now elim Hs|].
    destruct t as [|h' t]; [exact IH|].
    change (removelast ((c :: h) :: h' :: t)) with ((c :: h) :: removelast (h' :: t)).
    change (removelast (h :: h' :: t)) with (h :: removelast (h' :: t)) in IH.
    exact IH.
Qed.

Lemma count_none (s : text) :
  Forall (fun c => c <> LF) s -> count_occ N.eq_dec s LF = 0%nat.
Proof.
  induction 1 as [|c s Hc _ IH]; [reflexivity|]. cbn [count_occ].
  destruct (N.eq_dec c LF); [contradiction|exact IH].
Qed.

Lemma continuation_high (c : N) : is_continuation c = true -> 0x80 <= c.
Proof. unfold is_continuation. rewrite andb_true_iff, N.leb_le. tauto. Qed.

Lemma second_of_3_continuation (c0 c1 : N) :
  second_of_3 c0 c1 = true -> is_continuation c1 = true.
Proof. unfold second_of_3. rewrite !andb_true_iff. tauto. Qed.

Lemma second_of_4_continuation (c0 c1 : N) :
  second_of_4 c0 c1 = true -> is_continuation c1 = true.
Proof. unfold second_of_4. rewrite !andb_true_iff. tauto. Qed.

Lemma low6_shiftr (c : N) : N.shiftr (low6 c) 6 = 0.
Proof. unfold low6. rewrite N.shiftr_land. apply N.land_0_r. Qed.

Lemma low6_zero (b : Byte.byte) :
  is_continuation (Byte.to_N b) = true -> low6 (Byte.to_N b) = 0 -> Byte.to_N b = 0x80.
Proof. destruct b; vm_compute; intros H1 H2; congruence. Qed.

Lemma cp2_not_lf (b0 b1 : Byte.byte) :
  (Byte.to_N b0 <? 0xC2) = false -> (Byte.to_N b0 <? 0xE0) = true ->
  cp2 (Byte.to_N b0) (Byte.to_N b1) <> LF.
Proof.
  intros Hlo Hhi E. apply (f_equal (fun x => N.shiftr x 6)) in E.
  unfold cp2 in E. rewrite N.shiftr_lor, low6_shiftr, N.lor_0_r in E.
  rewrite N.shiftr_shiftl_r, N.sub_diag, N.shiftr_0_r in E by reflexivity.
  change (N.shiftr LF 6) with 0 in E.
  revert Hlo Hhi E. destruct b0; vm_compute; congruence.
Qed.

Lemma cp3_not_lf (b0 b1 b2 : Byte.byte) :
  (Byte.to_N b0 <? 0xE0) = false -> (Byte.to_N b0 <? 0xF0) = true ->
  second_of_3 (Byte.to_N b0) (Byte.to_N b1) = true ->
  cp3 (Byte.to_N b0) (Byte.to_N b1) (Byte.to_N b2) <> LF.
Proof.
  intros Hlo Hhi H2 E. apply (f_equal (fun x => N.shiftr x 6)) in E.
  unfold cp3 in E. rewrite !N.shiftr_lor, low6_shiftr, N.lor_0_r in E.
  rewrite !N.shiftr_shiftl_l in E by (vm_compute; discriminate).
  change (N.shiftr LF 6) with 0 in E.
  apply N.lor_eq_0_iff in E as [E0 E1].
  apply N.shiftl_eq_0_iff in E0, E1.
  apply low6_zero in E1; [|exact (second_of_3_continuation _ _ H2)].
  rewrite E1 in H2.
  revert Hlo Hhi E0 H2. destruct b0; vm_compute; congruence.
Qed.

Lemma cp4_not_lf (b0 b1 b2 b3 : Byte.byte) :
  (Byte.to_N b0 <? 0xF0) = false -> (Byte.to_N b0 <? 0xF5) = true ->
  second_of_4 (Byte.to_N b0) (Byte.to_N b1) = true ->
  cp4 (Byte.to_N b0) (Byte.to_N b1) (Byte.to_N b2) (Byte.to_N b3) <> LF.
Proof.
  intros Hlo Hhi H2 E. apply (f_equal (fun x => N.shiftr x 6)) in E.
  unfold cp4 in E. rewrite !N.shiftr_lor, low6_shiftr, N.lor_0_r in E.
  rewrite !N.shiftr_shiftl_l in E by (vm_compute; discriminate).
  change (N.shiftr LF 6) with 0 in E.
  apply N.lor_eq_0_iff in E as [E0 E1].
  apply N.lor_eq_0_iff in E1 as [E1 _].
  apply N.shiftl_eq_0_iff in E0, E1.
  apply low6_zero in E1; [|exact (second_of_4_continuation _ _ H2)].
  rewrite E1 in H2.
  revert Hlo Hhi E0 H2. destruct b0; vm_compute; congruence.
Qed.

Ltac high_octets :=
  repeat constructor;
  repeat match goal with
         | H : (_ <? _) = false |- _ => apply N.ltb_ge in H
         | H : negb _ = false |- _ => apply negb_false_iff in H
         | H : second_of_3 _ _ = true |- _ => apply second_of_3_continuation in H
         | H : second_of_4 _ _ = true |- _ => apply second_of_4_continuation in H
         | H : is_continuation _ = true |- _ => apply continuation_high in H
         end; lia.

(** The decoder consumes the data unit by unit. *)
Lemma decoded_step (b0 : Byte.byte) (r1 : bytes) :
  exists pre rest c,
    b0 :: r1 = pre ++ rest
    /\ decoded_unit pre c
    /\ decoded (b0 :: r1) = c :: decoded rest.
Proof.
  unfold decoded at 1. cbn [decode_utf8]; cbv zeta.
  destruct (Byte.to_N b0 <? 0x80) eqn:H80.
  { exists [b0], r1, (Byte.to_N b0). rewrite decoded_eq.
    repeat split. constructor. apply N.ltb_lt. exact H80. }
  assert (one : exists pre rest c,
             b0 :: r1 = pre ++ rest /\ decoded_unit pre c
             /\ match on_error Replace (decode_utf8 Replace r1) with
                | Ok s => s | Raise _ => [] end = c :: decoded rest).
  { exists [b0], r1, REPLACEMENT. rewrite decoded_eq.
    repeat split. apply unit_high; [discriminate|high_octets|discriminate]. }
  assert (cut : forall pre, b0 :: r1 = pre -> Forall (fun b => 0x80 <= Byte.to_N b) pre ->
             exists pre' rest c,
               b0 :: r1 = pre' ++ rest /\ decoded_unit pre' c
               /\ match on_error Replace (Ok []) with
                  | Ok s => s | Raise _ => [] end = c :: decoded rest).
  { intros pre E Hpre. exists pre, [], REPLACEMENT. rewrite app_nil_r.
    repeat split; [exact E|]. apply unit_high; [rewrite <- E; discriminate|exact Hpre|discriminate]. }
  destruct (Byte.to_N b0 <? 0xC2) eqn:HC2; [exact one|].
  destruct (Byte.to_N b0 <? 0xE0) eqn:HE0.
  { destruct r1 as [|b1 r2]; [apply (cut _ eq_refl); high_octets|].
    destruct (is_continuation (Byte.to_N b1)) eqn:H1; [|exact one].
    exists [b0; b1], r2, (cp2 (Byte.to_N b0) (Byte.to_N b1)). rewrite decoded_eq.
    repeat split. apply unit_high; [discriminate| |apply cp2_not_lf; assumption].
    high_octets. }
  destruct (Byte.to_N b0 <? 0xF0) eqn:HF0.
  { destruct r1 as [|b1 r2]; [apply (cut _ eq_refl); high_octets|].
    destruct (second_of_3 (Byte.to_N b0) (Byte.to_N b1)) eqn:H1; cbn [negb]; [|exact one].
    destruct r2 as [|b2 r3]; [apply (cut _ eq_refl); high_octets|].
    destruct (is_continuation (Byte.to_N b2)) eqn:H2.
    - exists [b0; b1; b2], r3, (cp3 (Byte.to_N b0) (Byte.to_N b1) (Byte.to_N b2)).
      rewrite decoded_eq. repeat split.
      apply unit_high; [discriminate| |apply cp3_not_lf; assumption]. high_octets.
    - exists [b0; b1], (b2 :: r3), REPLACEMENT. rewrite decoded_eq.
      repeat split. apply unit_high; [discriminate|high_octets|discriminate]. }
  destruct (Byte.to_N b0 <? 0xF5) eqn:HF5; [|exact one].
  destruct r1 as [|b1 r2]; [apply (cut _ eq_refl); high_octets|].
  destruct (second_of_4 (Byte.to_N b0) (Byte.to_N b1)) eqn:H1; cbn [negb]; [|exact one].
  destruct r2 as [|b2 r3]; [apply (cut _ eq_refl); high_octets|].
  destruct (is_continuation (Byte.to_N b2)) eqn:H2; cbn [negb].
  2:{ exists [b0; b1], (b2 :: r3), REPLACEMENT. rewrite decoded_eq.
      repeat split. apply unit_high; [discriminate|high_octets|discriminate]. }
  destruct r3 as [|b3 r4]; [apply (cut _ eq_refl); high_octets|].
  destruct (is_continuation (Byte.to_N b3)) eqn:H3.
  - exists [b0; b1; b2; b3], r4,
      (cp4 (Byte.to_N b0) (Byte.to_N b1) (Byte.to_N b2) (Byte.to_N b3)).
    rewrite decoded_eq. repeat split.
    apply unit_high; [discriminate| |apply cp4_not_lf; assumption]. high_octets.
  - exists [b0; b1; b2], (b3 :: r4), REPLACEMENT. rewrite decoded_eq.
    repeat split. apply unit_high; [discriminate|high_octets|discriminate].
Qed.

Lemma lf_octet (b : Byte.byte) : Byte.to_N b = LF <-> b = Byte.x0a.
Proof. split; [destruct b; vm_compute; congruence|intros ->; reflexivity]. Qed.

Lemma count_high (pre : bytes) :
  Forall (fun b => 0x80 <= Byte.to_N b) pre -> count_occ Byte.byte_eq_dec pre Byte.x0a = 0%nat.
Proof.
  induction 1 as [|b pre Hb _ IH]; [reflexivity|]. cbn [count_occ].
  destruct (Byte.byte_eq_dec b Byte.x0a) as [->|_]; [|exact IH].
  vm_compute in Hb. now elim Hb.
Qed.

(** The decoded text has a line feed for every octet 0x0A of the data, and
    no other: no ill-formed or multi-octet sequence hides or makes one. *)
Lemma decoded_count (data : bytes) :
  count_occ N.eq_dec (decoded data) LF = count_occ Byte.byte_eq_dec data Byte.x0a.
Proof.
  remember (length data) as n eqn:Hn. revert data Hn.
  induction n as [n IH] using lt_wf_ind; intros data Hn.
  destruct data as [|b0 r1]; [reflexivity|].
  destruct (decoded_step b0 r1) as (pre & rest & c & E & Hu & Hd).
  rewrite Hd, E, count_occ_app. cbn [count_occ].
  assert (Hlen : (length rest < n)%nat).
  { subst n. rewrite E, length_app. destruct Hu; [simpl; lia|].
    destruct pre; [contradiction|simpl; lia]. }
  rewrite (IH _ Hlen rest eq_refl).
  destruct Hu as [b Hb|pre c Hne Hpre Hc].
  - cbn [count_occ]. destruct (N.eq_dec (Byte.to_N b) LF) as [H|H];
      destruct (Byte.byte_eq_dec b Byte.x0a) as [H'|H']; try reflexivity.
    + apply lf_octet in H. contradiction.
    + subst b. now elim H.
  - rewrite (count_high _ Hpre). destruct (N.eq_dec c LF); [contradiction|reflexivity].
Qed.

(** A code point for one octet or more: the text is no longer than the
    data. *)
Lemma decoded_length (data : bytes) : (length (decoded data) <= length data)%nat.
Proof.
  remember (length data) as n eqn:Hn. revert data Hn.
  induction n as [n IH] using lt_wf_ind; intros data Hn.
  destruct data as [|b0 r1]; [subst; simpl; lia|].
  destruct (decoded_step b0 r1) as (pre & rest & c & E & Hu & Hd).
  assert (Hpre : (1 <= length pre)%nat)
    by (destruct Hu; [simpl; lia|destruct pre; [contradiction|simpl; lia]]).
  assert (Hlen : n = (length pre + length rest)%nat)
    by (subst n; rewrite E, length_app; reflexivity).
  rewrite Hd. cbn [length].
  pose proof (IH (length rest) ltac:(lia) rest eq_refl). lia.
Qed.

Lemma last_length (s : text) : (length (List.last (split_lines s) []) <= length s)%nat.
Proof.
  rewrite <- (split_join s) at 2. rewrite length_app. lia.
Qed.

End ParserInvariants.

Section PatternConverse.

Lemma strip_prefix_inv (lit s r : text) : strip_prefix lit s = Some r -> s = lit ++ r.
Proof.
  revert s. induction lit as [|a lit IH]; intros s H.
  - destruct s; injection H as <-; reflexivity.
  - destruct s as [|c s]; [discriminate|]. simpl in H.
    destruct (N.eqb_spec a c) as [->|]; [|discriminate].
    rewrite (IH _ H). reflexivity.
Qed.

(** A run is a prefix made of characters of the class, and stops at the
    end or before a character outside the class. *)
Lemma run_split (p : codepoint -> bool) (s : text) :
  s = run p s ++ skipn (length (run p s)) s
  /\ Forall (fun c => p c = true) (run p s)
  /\ match skipn (length (run p s)) s with
     | [] => True
     | c :: _ => p c = false
     end.
Proof.
  induction s as [|c s (IH1 & IH2 & IH3)]; [repeat split; constructor|].
  simpl. destruct (p c) eqn:E; simpl.
  - repeat split; [f_equal; exact IH1|constructor; assumption|exact IH3].
  - repeat split; [constructor|exact E].
Qed.

Lemma give_back_inv (k : nat) (r g : text) :
  give_back k r = Some g ->
  exists j, (1 <= j <= k)%nat /\ run is_num (skipn j r) = g /\ g <> [].
Proof.
  induction k as [|k IH]; [discriminate|]. cbn [give_back].
  destruct (run is_num (skipn (S k) r)) as [|c g'] eqn:E.
  - intros H. destruct (IH H) as (j & Hj & Hg). exists j. split; [lia|exact Hg].
  - intros H. injection H as <-. exists (S k). split; [lia|]. split; [exact E|discriminate].
Qed.

Lemma match_at_inv (tag s g : text) :
  match_at tag s = Some g ->
  exists seps rest,
    s = tag ++ seps ++ g ++ rest
    /\ seps <> [] /\ Forall (fun c => is_sep c = true) seps
    /\ g <> [] /\ Forall (fun c => is_num c = true) g
    /\ ends_token rest.
Proof.
  unfold match_at. destruct (strip_prefix tag s) as [r|] eqn:Ep; [|discriminate].
  apply strip_prefix_inv in Ep. intros H.
  apply give_back_inv in H as (j & Hj & Hg & Hne).
  destruct (run_split is_sep r) as (Hr & Hsep & _).
  destruct (run_split is_num (skipn j r)) as (Hn & Hnum & Hend).
  rewrite Hg in Hn, Hnum, Hend.
  exists (firstn j r), (skipn (length g) (skipn j r)).
  split; [|split; [|split; [|split; [|split]]]].
  - rewrite Ep. f_equal. rewrite <- Hn. symmetry. apply firstn_skipn.
  - intros E. apply (f_equal (@length _)) in E. rewrite length_firstn in E.
    assert ((j <= length r)%nat).
    { rewrite Hr at 1. rewrite length_app. lia. }
    simpl in E. lia.
  - rewrite Hr. rewrite firstn_app.
    replace (j - length (run is_sep r))%nat with 0%nat by lia.
    rewrite firstn_O, app_nil_r. apply Forall_take. exact Hsep.
  - exact Hne.
  - exact Hnum.
  - exact Hend.
Qed.

Lemma re_search_inv (tag s g : text) :
  re_search tag s = Some g ->
  exists pre s',
    s = pre ++ s'
    /\ match_at tag s' = Some g
    /\ (forall k, (k < length pre)%nat -> match_at tag (skipn k s) = None).
Proof.
  induction s as [|c s IH].
  - cbn [re_search]. destruct (match_at tag []) eqn:E; [|discriminate].
    intros H. injection H as ->. exists [], []. repeat split; [exact E|].
    intros k Hk. simpl in Hk. lia.
  - cbn [re_search]. destruct (match_at tag (c :: s)) eqn:E.
    + intros H. injection H as ->. exists [], (c :: s). repeat split; [exact E|].
      intros k Hk. simpl in Hk. lia.
    + intros H. destruct (IH H) as (pre & s' & -> & Hm & Hpre).
      exists (c :: pre), s'. repeat split; [exact Hm|].
      intros [|k] Hk; [exact E|]. apply Hpre. simpl in Hk. lia.
Qed.

Lemma token_value_inv (tag line : text) (v : float) :
  token_value tag line = Some v ->
  exists pre seps num rest,
    line = pre ++ tag ++ seps ++ num ++ rest
    /\ (forall k, (k < length pre)%nat -> match_at tag (skipn k line) = None)
    /\ seps <> [] /\ Forall (fun c => is_sep c = true) seps
    /\ num <> [] /\ Forall (fun c => is_num c = true) num
    /\ ends_token rest
    /\ float_of_text num = Ok v.
Proof.
  unfold token_value. destruct (re_search tag line) as [g|] eqn:E; [|discriminate].
  destruct (float_of_text g) as [w|] eqn:Ef; [|discriminate].
  intros H. assert (w = v) by congruence. subst w.
  apply re_search_inv in E as (pre & s' & -> & Hm & Hpre).
  apply match_at_inv in Hm as (seps & rest & -> & H1 & H2 & H3 & H4 & H5).
  exists pre, seps, g, rest. repeat split; assumption.
Qed.

Lemma scan_lines_total (lines : list text) (result : DataParser.readings) :
  exists r, DataParser.scan_lines result lines = Ok r.
Proof.
  revert result. induction lines as [|l lines IH]; intros result; [simpl; eauto|].
  cbn [DataParser.scan_lines]. unfold DataParser.scan_line.
  destruct (strip l) as [|ch s]; cbn [bind]; [apply IH|].
  unfold items, DataParser.PATTERNS. cbn [DataParser.scan_patterns].
  rewrite !scan_pattern_eq. cbn [bind]. rewrite scan_pattern_eq. cbn [bind].
  rewrite scan_pattern_eq. cbn [bind]. apply IH.
Qed.

(** What a line does to one channel: a token stores its value, no token
    leaves what was there. *)
Lemma scan_line_lookup (result : DataParser.readings) (line : text) (key : string) (tag : text) :
  In (key, tag) DataParser.PATTERNS ->
  exists r,
    DataParser.scan_line result line = Ok r
    /\ lookup_key key r
       = match token_value tag (strip line) with
         | Some v => Some (Some v)
         | None => lookup_key key result
         end.
Proof.
  intros Hin. unfold DataParser.scan_line.
  destruct (strip line) as [|ch s] eqn:Es.
  - eexists. split; [reflexivity|].
    unfold DataParser.PATTERNS in Hin. cbn [In] in Hin.
    destruct Hin as [Hin|[Hin|[Hin|[]]]]; injection Hin as <- <-; reflexivity.
  - unfold items, DataParser.PATTERNS. cbn [DataParser.scan_patterns].
    rewrite !scan_pattern_eq. cbn [bind]. rewrite scan_pattern_eq. cbn [bind].
    rewrite scan_pattern_eq. cbn [bind]. eexists. split; [reflexivity|].
    unfold DataParser.PATTERNS in Hin. cbn [In] in Hin.
    destruct Hin as [Hin|[Hin|[Hin|[]]]]; injection Hin as <- <-;
      unfold store;
      repeat match goal with
             | |- context [token_value ?t (ch :: s)] => destruct (token_value t (ch :: s))
             end;
      rewrite ?lookup_setitem; reflexivity.
Qed.

End PatternConverse.

Section ParserExtras.

(** X1: after every call the buffer holds no line feed: what the parser
    keeps is always the unfinished tail of the stream. *)
Theorem buffer_never_holds_line_feed (p : DataParser.t) (data : bytes) :
  Forall (fun c => c <> LF) (DataParser._buffer (fst (DataParser.parse p data))).
Proof.
  rewrite parse_completed. cbn [fst DataParser._buffer]. apply split_lines_last_no_lf.
Qed.

(** X2: a call loses no character and keeps their order: the lines it hands
    to the patterns, each with its line feed, followed by the buffer it
    keeps, spell the old buffer followed by the decoded data. *)
Theorem parse_keeps_every_character (p : DataParser.t) (data : bytes) :
  snd (DataParser.parse p data)
  = DataParser.scan_lines DataParser.empty_result (completed p data)
  /\ join_lines (completed p data) ++ DataParser._buffer (fst (DataParser.parse p data))
     = DataParser._buffer p ++ decoded data.
Proof.
  rewrite parse_completed. cbn [fst snd DataParser._buffer].
  split; [reflexivity|]. apply split_join.
Qed.

(** X3: with a buffer that holds no line feed, a call completes as many
    lines as the data holds octets 0x0A; data without that octet completes
    none: it is appended to the buffer and nothing is reported. *)
Theorem completed_lines_count (p : DataParser.t) (data : bytes) :
  Forall (fun c => c <> LF) (DataParser._buffer p) ->
  length (completed p data) = count_occ Byte.byte_eq_dec data Byte.x0a
  /\ (count_occ Byte.byte_eq_dec data Byte.x0a = 0%nat ->
      DataParser.parse p data
      = (DataParser.Parser (DataParser._buffer p ++ decoded data),
         Ok DataParser.empty_result)).
Proof.
  intros Hbuf.
  assert (Hcount : length (completed p data) = count_occ Byte.byte_eq_dec data Byte.x0a).
  { unfold completed. rewrite completed_count, count_occ_app.
    pose proof (count_none _ Hbuf) as H0. pose proof (decoded_count data) as H1.
    unfold text, codepoint in *. rewrite H0, H1. reflexivity. }
  split; [exact Hcount|]. intros Hzero. rewrite Hzero in Hcount.
  rewrite parse_completed.
  pose proof (split_join (DataParser._buffer p ++ decoded data)) as Hjoin.
  fold (completed p data) in Hjoin.
  destruct (completed p data); [|discriminate Hcount].
  cbn in Hjoin. rewrite Hjoin. reflexivity.
Qed.

Lemma completed_lines_count_witness :
  length (completed DataParser.init scenario_chunks_first) = 2%nat
  /\ length (completed (DataParser.Parser (text_of_string "HALL2")) (bytes_of_string "_A:3")) = 0%nat.
Proof.
  split.
  - apply (proj1 (completed_lines_count DataParser.init scenario_chunks_first
                    ltac:(constructor))).
  - apply (proj1 (completed_lines_count (DataParser.Parser (text_of_string "HALL2"))
                    (bytes_of_string "_A:3") ltac:(repeat constructor; discriminate))).
Defined.

(** X4: a line gives a channel a value only through a token: if the value
    of a channel after a line is not the one before it, the stripped line
    holds the channel's tag, then one or more separators, then a run of
    capture characters that converts to that value. *)
Theorem reported_value_has_token
        (key : string) (tag line : text) (result r : DataParser.readings) (v : float) :
  In (key, tag) DataParser.PATTERNS ->
  DataParser.scan_line result line = Ok r ->
  lookup_key key r = Some (Some v) ->
  lookup_key key result = Some (Some v)
  \/ exists pre seps num rest,
       strip line = pre ++ tag ++ seps ++ num ++ rest
       /\ (forall k, (k < length pre)%nat -> match_at tag (skipn k (strip line)) = None)
       /\ seps <> [] /\ Forall (fun c => is_sep c = true) seps
       /\ num <> [] /\ Forall (fun c => is_num c = true) num
       /\ ends_token rest
       /\ float_of_text num = Ok v.
Proof.
  intros Hin Hscan Hv.
  destruct (scan_line_lookup result line key tag Hin) as (r' & Hscan' & Hlook).
  assert (r' = r) by congruence. subst r'. rewrite Hv in Hlook.
  destruct (token_value tag (strip line)) as [w|] eqn:Et.
  - right. assert (w = v) by congruence. subst w. apply token_value_inv. exact Et.
  - left. symmetry. exact Hlook.
Qed.

Lemma reported_value_has_token_witness :
  lookup_key "hall1" DataParser.empty_result = Some (Some 2%float)
  \/ exists pre seps num rest,
       strip (text_of_string "CT_A:1 HALL1_A=2;") = pre ++ text_of_string "HALL1_A" ++ seps ++ num ++ rest
       /\ (forall k, (k < length pre)%nat ->
             match_at (text_of_string "HALL1_A")
                      (skipn k (strip (text_of_string "CT_A:1 HALL1_A=2;"))) = None)
       /\ seps <> [] /\ Forall (fun c => is_sep c = true) seps
       /\ num <> [] /\ Forall (fun c => is_num c = true) num
       /\ ends_token rest
       /\ float_of_text num = Ok 2%float.
Proof.
  apply (reported_value_has_token "hall1" (text_of_string "HALL1_A")
           (text_of_string "CT_A:1 HALL1_A=2;") DataParser.empty_result
           (dict_of (Some 1%float, Some 2%float, None)) 2%float).
  - cbn. auto.
  - vm_compute. reflexivity.
  - reflexivity.
Defined.

(** X5: within one call a later line overwrites an earlier one: after the
    last line, a channel for which that line has a token holds the token's
    value, whatever the lines before it gave, and a channel for which it has
    none holds what the lines before it gave. *)
Theorem last_line_wins
        (key : string) (tag : text) (lines : list text) (line : text)
        (result : DataParser.readings) :
  In (key, tag) DataParser.PATTERNS ->
  exists r0 r,
    DataParser.scan_lines result lines = Ok r0
    /\ DataParser.scan_lines result (lines ++ [line]) = Ok r
    /\ lookup_key key r
       = match token_value tag (strip line) with
         | Some v => Some (Some v)
         | None => lookup_key key r0
         end.
Proof.
  intros Hin. destruct (scan_lines_total lines result) as [r0 H0].
  destruct (scan_line_lookup r0 line key tag Hin) as (r & Hr & Hlook).
  exists r0, r. split; [exact H0|]. split; [|exact Hlook].
  rewrite scan_lines_app, H0. cbn [bind DataParser.scan_lines].
  rewrite Hr. reflexivity.
Qed.

Lemma last_line_wins_witness :
  exists r0 r,
    DataParser.scan_lines DataParser.empty_result
                          [text_of_string "CT_A:1 HALL1_A:5"] = Ok r0
    /\ DataParser.scan_lines DataParser.empty_result
                             ([text_of_string "CT_A:1 HALL1_A:5"] ++ [text_of_string "CT_A:2"]) = Ok r
    /\ lookup_key "ct_clamp" r
       = match token_value (text_of_string "CT_A") (strip (text_of_string "CT_A:2")) with
         | Some v => Some (Some v)
         | None => lookup_key "ct_clamp" r0
         end.
Proof.
  apply (last_line_wins "ct_clamp" (text_of_string "CT_A")
           [text_of_string "CT_A:1 HALL1_A:5"] (text_of_string "CT_A:2")
           DataParser.empty_result).
  cbn. auto.
Defined.

(** X6: the buffer grows by no more than the number of octets fed. *)
Theorem buffer_growth_bounded (p : DataParser.t) (data : bytes) :
  (length (DataParser._buffer (fst (DataParser.parse p data)))
   <= length (DataParser._buffer p) + length data)%nat.
Proof.
  rewrite parse_completed. cbn [fst DataParser._buffer].
  pose proof (last_length (DataParser._buffer p ++ decoded data)) as H.
  rewrite length_app in H. pose proof (decoded_length data). lia.
Qed.

End ParserExtras.

(* ===================================================================== *)
(** * More on the link session                                            *)
(* ===================================================================== *)

Section LinkExtras.
Import BleWorker.
Variable air : radio.

Lemma disconnect_silent_address (w : t) :
  _connected_address (fst (_disconnect_silent air w)) = None
  \/ (_client w = None /\ fst (_disconnect_silent air w) = w).
Proof.
  unfold _disconnect_silent. destruct (_client w); [left|right]; auto.
Qed.

Lemma disconnect_and_post_unfold (w : t) :
  _disconnect_and_post air w
  = (put (connected false) (put (status "Disconnected") (fst (_disconnect_silent air w))),
     Returns tt).
Proof.
  unfold _disconnect_and_post. pose proof (disconnect_silent_spec air w) as (Hr & _).
  destruct (_disconnect_silent air w) as [w1 r]. cbn [fst snd] in *. subst r. reflexivity.
Qed.

Lemma disconnect_and_post_client (w : t) :
  _client (fst (_disconnect_and_post air w)) = None.
Proof.
  rewrite disconnect_and_post_unfold. cbn [fst put _client].
  apply (disconnect_silent_spec air w).
Qed.

(** X7: a disconnect always returns; it posts the status [Disconnected]
    and then [connected=False], whether or not a client was held and
    whatever the client's [stop_notify] and [disconnect] did; afterwards the
    worker holds no client, and the link of the client it held is closed if
    that client's [disconnect] returned. *)
Theorem disconnect_posts_and_forgets (w : t) :
  snd (_disconnect_and_post air w) = Returns tt
  /\ events (fst (_disconnect_and_post air w))
     = events w ++ [status "Disconnected"; connected false]
  /\ _client (fst (_disconnect_and_post air w)) = None
  /\ (forall a u, _client w = Some a -> disconnect_returns (air a) = Returns u ->
        a ∉ open_links (fst (_disconnect_and_post air w))).
Proof.
  rewrite disconnect_and_post_unfold. cbn [fst snd].
  destruct (disconnect_silent_spec air w) as (_ & He & Hc).
  pose proof (disconnect_silent_links air w) as Hl.
  split; [reflexivity|]. split; [|split].
  - cbn. rewrite He, <- List.app_assoc. reflexivity.
  - cbn. exact Hc.
  - intros a u Ha Hd. cbn. rewrite Hl, Ha, Hd.
    intros Hin. apply elem_of_difference in Hin as [_ Hn].
    apply Hn, elem_of_singleton. reflexivity.
Qed.

(** X8: a disconnect after a disconnect finds no client: it makes no call
    on the radio, changes no field of the worker, and only posts the two
    events again. *)
Theorem second_disconnect_only_posts (w : t) :
  fst (_disconnect_and_post air (fst (_disconnect_and_post air w)))
  = put (connected false)
        (put (status "Disconnected") (fst (_disconnect_and_post air w))).
Proof.
  rewrite (disconnect_and_post_unfold (fst (_disconnect_and_post air w))). cbn [fst].
  do 2 f_equal.
  pose proof (disconnect_and_post_client w) as Hc.
  unfold _disconnect_silent at 1. rewrite Hc. reflexivity.
Qed.

(** X9: a connect made while a client is held tears that client down
    first.  When the old client's [disconnect] returns, every step of the
    new connect succeeds and its link is up, the only link open afterwards
    is the new one, and the worker holds the new client. *)
Theorem reconnect_leaves_one_link (addr a : string) (u : unit) (w : t) :
  _client w = Some a ->
  open_links w = {[a]} ->
  disconnect_returns (air a) = Returns u ->
  snd (connect_body air addr w) = Returns tt ->
  link_up (air addr) = true ->
  open_links (fst (_connect_and_post air addr w)) = {[addr]}
  /\ _client (fst (_connect_and_post air addr w)) = Some addr.
Proof.
  intros Ha Hopen Hd Hok Hup.
  pose proof (connect_events air addr w) as (_ & Hev). rewrite Hok in Hev.
  split; [|exact (proj2 Hev)].
  unfold _connect_and_post. revert Hok. unfold connect_body.
  pose proof (disconnect_silent_links air w) as Hl. rewrite Ha, Hd, Hopen in Hl.
  pose proof (disconnect_silent_spec air w) as (Hr & _).
  destruct (_disconnect_silent air w) as [w1 r]. cbn [fst snd] in *. subst r.
  rewrite Hup.
  repeat match goal with
         | |- context [match ?x with _ => _ end] => destruct x
         end; cbn [fst snd]; intros H; try discriminate H;
    cbn; rewrite Hl; apply set_eq; intros x;
    rewrite elem_of_union, elem_of_difference, !elem_of_singleton; tauto.
Qed.

(** X10: a connect always returns and always posts exactly two events:
    the status naming the address and then [connected=True], the worker
    then holding the client; or the error with its cause and then
    [connected=False], the worker then holding none. *)
Theorem connect_outcome_posted (addr : string) (w : t) :
  snd (_connect_and_post air addr w) = Returns tt
  /\ exists e1 e2,
       events (fst (_connect_and_post air addr w)) = events w ++ [e1; e2]
       /\ ((e1 = status ("Connected to " +:+ addr) /\ e2 = connected true
            /\ _client (fst (_connect_and_post air addr w)) = Some addr)
           \/ (exists cause, e1 = error ("Connect failed: " +:+ cause))
              /\ e2 = connected false
              /\ _client (fst (_connect_and_post air addr w)) = None).
Proof.
  destruct (connect_events air addr w) as (Hr & Hev). split; [exact Hr|].
  destruct (snd (connect_body air addr w)) as [[]|f].
  - destruct Hev as [He Hc]. eexists _, _. split; [exact He|]. left. auto.
  - destruct Hev as [He Hc]. eexists _, _. split; [exact He|]. right. eauto.
Qed.

End LinkExtras.

Lemma disconnect_posts_and_forgets_witness :
  "AA:BB" ∉ BleWorker.open_links
              (fst (BleWorker._disconnect_and_post (fun _ => with_nus) connected_worker)).
Proof.
  apply (proj2 (proj2 (proj2 (disconnect_posts_and_forgets (fun _ => with_nus) connected_worker)))
               "AA:BB"%string tt); reflexivity.
Defined.

Lemma reconnect_leaves_one_link_witness :
  BleWorker.open_links (fst (BleWorker._connect_and_post (fun _ => with_nus) "CC:DD" connected_worker))
  = {["CC:DD"%string]}
  /\ BleWorker._client (fst (BleWorker._connect_and_post (fun _ => with_nus) "CC:DD" connected_worker))
     = Some "CC:DD"%string.
Proof.
  apply (reconnect_leaves_one_link (fun _ => with_nus) "CC:DD" "AA:BB" tt connected_worker).
  - reflexivity.
  - apply set_eq. intros x. cbn. rewrite elem_of_union, elem_of_singleton.
    split; [intros [H|H]; [now apply elem_of_empty in H|exact H]|auto].
  - reflexivity.
  - reflexivity.
  - reflexivity.
Defined.

Section StableSortMore.
Context {A K : Type} `{EqDecision K} (le : K -> K -> bool) (key : A -> K).
Hypothesis le_refl : forall a, le a a = true.

Lemma insert_by_same_key (k : K) (x : A) (l : list A) :
  List.filter (fun z => bool_decide (key z = k)) (insert_by le key x l)
  = List.filter (fun z => bool_decide (key z = k)) (x :: l).
Proof.
  induction l as [|y l IH]; [reflexivity|]. cbn [insert_by].
  destruct (le (key x) (key y)) eqn:E; [reflexivity|].
  cbn [List.filter] in *. rewrite IH.
  destruct (bool_decide_reflect (key x = k)) as [Hx|Hx];
    destruct (bool_decide_reflect (key y = k)) as [Hy|Hy]; try reflexivity.
  rewrite Hx, Hy, le_refl in E. discriminate E.
Qed.

(** The elements of one key come out of the sort in the order in which
    they went in. *)
Lemma sort_by_same_key (k : K) (l : list A) :
  List.filter (fun z => bool_decide (key z = k)) (sort_by le key l)
  = List.filter (fun z => bool_decide (key z = k)) l.
Proof.
  induction l as [|x l IH]; [reflexivity|]. cbn [sort_by].
  rewrite insert_by_same_key. cbn [List.filter]. rewrite IH. reflexivity.
Qed.

End StableSortMore.

Section ScanExtras.
Import BleWorker.
Variable lower : text -> text.

Lemma in_collect (name_filter : text) (devices : list BLEDevice) (x : FoundDevice) :
  In x (collect lower name_filter devices)
  <-> exists d, In d devices /\ passes lower name_filter d /\ x = as_found d.
Proof.
  induction devices as [|d devices IH]; cbn [collect].
  - split; [intros []|intros (d & [] & _)].
  - fold (shown_name d).
    destruct (bool_decide_reflect (name_filter = [])) as [Hf|Hf]; cbn [negb andb].
    + cbn [In]. rewrite IH. split.
      * intros [<-|(d' & Hd & Hp & ->)].
        -- exists d. split; [left; reflexivity|]. split; [left; exact Hf|reflexivity].
        -- exists d'. split; [right; exact Hd|]. split; [exact Hp|reflexivity].
      * intros (d' & [<-|Hd] & Hp & ->); [left; reflexivity|right; eauto].
    + destruct (contains (lower (shown_name d)) (lower name_filter)) eqn:Ec; cbn [negb].
      * cbn [In]. rewrite IH. split.
        -- intros [<-|(d' & Hd & Hp & ->)].
           ++ exists d. split; [left; reflexivity|]. split; [right; exact Ec|reflexivity].
           ++ exists d'. split; [right; exact Hd|]. split; [exact Hp|reflexivity].
        -- intros (d' & [<-|Hd] & Hp & ->); [left; reflexivity|right; eauto].
      * rewrite IH. split.
        -- intros (d' & Hd & Hp & ->). exists d'. split; [right; exact Hd|]. split; [exact Hp|reflexivity].
        -- intros (d' & [<-|Hd] & Hp & ->); [|eauto].
           destruct Hp as [Hp|Hp]; [contradiction|congruence].
Qed.

Lemma collect_no_filter (devices : list BLEDevice) :
  length (collect lower [] devices) = length devices.
Proof.
  induction devices as [|d devices IH]; [reflexivity|].
  cbn [collect]. cbn. rewrite IH. reflexivity.
Qed.

(** X11: the scan result holds the entries of exactly the discovered
    devices that pass the name filter, a device passing when the filter is
    empty or its stripped name, in lower case, contains the filter in lower
    case; the name of an entry is never empty; and with the empty filter
    there is an entry for every discovered device. *)
Theorem scan_result_is_filtered (name_filter : text) (devices : list BLEDevice) :
  (forall x, In x (delivered lower name_filter devices)
             <-> exists d, In d devices /\ passes lower name_filter d /\ x = as_found d)
  /\ (forall x, In x (delivered lower name_filter devices) -> name x <> [])
  /\ length (delivered lower [] devices) = length devices.
Proof.
  assert (Hperm : forall f, Permutation (delivered lower f devices) (collect lower f devices))
    by (intros f; apply sort_by_perm).
  assert (Hin : forall x, In x (delivered lower name_filter devices)
                          <-> exists d, In d devices /\ passes lower name_filter d /\ x = as_found d).
  { intros x. rewrite <- in_collect. split; apply Permutation_in; [|symmetry]; apply Hperm. }
  split; [exact Hin|]. split.
  - intros x Hx. apply Hin in Hx as (d & _ & _ & ->). unfold as_found. cbn [name].
    destruct (bool_decide_reflect (shown_name d = [])) as [_|Hn]; [discriminate|exact Hn].
  - rewrite (Permutation_length (Hperm [])). apply collect_no_filter.
Qed.

(** X12: the scan sort is stable: the devices that share a sort key, that
    is the devices of one group with the same effective signal strength,
    are delivered in the order in which they were discovered. *)
Theorem scan_sort_is_stable (k : bool * Z) (l : list FoundDevice) :
  with_key k (sort_found l) = with_key k l.
Proof.
  unfold with_key, sort_found. apply sort_by_same_key.
  intros [[] z]; unfold key_le; cbn; apply Z.leb_refl.
Qed.

End ScanExtras.

Section WorkerInvariant.
Import BleWorker.
Variable lower : text -> text.
Variable air : radio.

Lemma last_connected_app (es : list event) (e : event) :
  last_connected (es ++ [e])
  = match e with
    | connected up => Some up
    | _ => last_connected es
    end.
Proof. unfold last_connected. rewrite fold_left_app. reflexivity. Qed.

Lemma last_connected_two (es : list event) (e : event) (up : bool) :
  last_connected (es ++ [e; connected up]) = Some up.
Proof.
  change [e; connected up] with ([e] ++ [connected up]).
  rewrite List.app_assoc, last_connected_app. reflexivity.
Qed.

Lemma disconnect_silent_cleared (w : t) :
  _connected_address w = _client w ->
  _connected_address (fst (_disconnect_silent air w)) = None.
Proof.
  intros H. unfold _disconnect_silent. destruct (_client w) eqn:E; [reflexivity|].
  cbn. congruence.
Qed.

Lemma connect_address (addr : string) (w : t) :
  _connected_address w = _client w ->
  _connected_address (fst (_connect_and_post air addr w))
  = _client (fst (_connect_and_post air addr w)).
Proof.
  intros Hw. unfold _connect_and_post, connect_body.
  pose proof (disconnect_silent_cleared w Hw) as Ha.
  pose proof (disconnect_silent_spec air w) as (Hr & _ & Hc).
  destruct (_disconnect_silent air w) as [w1 r]. cbn [fst snd] in *. subst r.
  destruct w1 as [ev cl ca ol]. cbn in Ha, Hc. subst cl ca.
  destruct (connect_returns (air addr)) as [ok|f]; [|reflexivity].
  destruct (negb ok && negb (link_up (air addr))); [reflexivity|].
  destruct (match services_attr (air addr) with
            | Some s => Returns (Some s)
            | None => match get_services (air addr) with
                      | Some call =>
                        match awaited call with
                        | Raises (Library e) =>
                          if is_type_error e then called call else Raises (Library e)
                        | r => r
                        end
                      | None => Returns None
                      end
            end) as [sv|f]; [|reflexivity].
  destruct (match sv with
            | Some s => has_get_service s && negb (has_nus s)
            | None => false
            end); [reflexivity|].
  destruct (start_notify_returns (air addr)); reflexivity.
Qed.

Lemma run_command_in_step (w : t) (c : command) :
  in_step w -> in_step (run_command lower air w c).
Proof.
  intros [Ha Hl]. destruct c as [f d|addr| |addr|data]; cbn [run_command].
  - unfold _scan_and_post, in_step.
    destruct d; cbn [put events _client _connected_address];
      (split; [exact Ha|]); rewrite last_connected_app; exact Hl.
  - split; [apply connect_address; exact Ha|].
    destruct (connect_events air addr w) as (_ & Hev).
    destruct (snd (connect_body air addr w)); destruct Hev as [He Hc];
      rewrite Hc, He, last_connected_two; [discriminate|discriminate].
  - rewrite disconnect_and_post_unfold. cbn [fst].
    destruct (disconnect_silent_spec air w) as (_ & He & Hc).
    split.
    + cbn. rewrite Hc. apply disconnect_silent_cleared. exact Ha.
    + cbn [put events]. rewrite <- List.app_assoc. cbn [app].
      rewrite last_connected_two. discriminate.
  - destruct (set_disconnected_callback (air addr)); [|split; [exact Ha|exact Hl]].
    split; [exact Ha|]. unfold on_disconnect. cbn [put events _client].
    rewrite <- List.app_assoc. cbn [app]. rewrite last_connected_two. discriminate.
  - split; [exact Ha|]. cbn [on_tx put events _client]. rewrite last_connected_app. exact Hl.
Qed.

(** X13: whatever scans, connects and disconnects have run, one after the
    other, since the worker was made, and whatever callbacks of the library
    have run between them, the address the worker remembers is that of the
    client it holds, and whenever the last [connected] event on the queue
    is [connected=True] the worker does hold a client. *)
Theorem worker_in_step_with_events (cs : list command) :
  in_step (run_commands lower air cs init).
Proof.
  unfold run_commands.
  assert (H : in_step init) by (split; [reflexivity|cbn; discriminate]).
  revert H. generalize init. induction cs as [|c cs IH]; intros w Hw; [exact Hw|].
  cbn [fold_left]. apply IH, run_command_in_step, Hw.
Qed.

End WorkerInvariant.

(** The converse does not hold: when the peripheral drops the link, the
    callback posts [connected=False] and the worker goes on holding the
    client. *)
Example link_down_leaves_client :
  let w := run_commands lower_ascii (fun _ => with_nus)
                        [Connect "AA:BB"; LinkDown "AA:BB"] BleWorker.init in
  last_connected (BleWorker.events w) = Some false
  /\ BleWorker._client w = Some "AA:BB"%string.
Proof. split; reflexivity. Qed.

(* ===================================================================== *)
(** * More on the sampling pipeline                                       *)
(* ===================================================================== *)

Section Soundness.
Import LaundryIQLogger.

Lemma channels_shape {V} (d : dict V) :
  channels d ->
  exists a b c, d = [("ct_clamp"%string, a); ("hall1"%string, b); ("hall2"%string, c)].
Proof.
  unfold channels.
  destruct d as [|[k1 a] [|[k2 b] [|[k3 c] [|]]]]; simpl; try discriminate.
  intros H. injection H as -> -> ->. eauto.
Qed.

Lemma tl_skipn {A} (k : nat) (l : list A) : tl (skipn k l) = skipn (S k) l.
Proof.
  revert l. induction k as [|k IH]; intros [|x l]; try reflexivity.
  cbn [skipn]. apply IH.
Qed.

(** Appending to a history that is the tail of what was written gives
    the tail of what is then written. *)
Lemma latest_snoc {A} (rows : list A) (x : A) :
  elems (deque_append x (Deque (Some CAPACITY) (latest rows))) = latest (rows ++ [x]).
Proof.
  unfold deque_append, latest. cbn [elems maxlen].
  rewrite !length_app, length_skipn. cbn [length]. unfold CAPACITY.
  destruct (Nat.ltb_spec (N.to_nat 10000)
                         (length rows - (length rows - N.to_nat 10000) + 1)) as [H|H].
  - replace (length rows + 1 - N.to_nat 10000)%nat
      with (S (length rows - N.to_nat 10000)) by lia.
    rewrite skipn_app.
    replace (S (length rows - N.to_nat 10000) - length rows)%nat with 0%nat by lia.
    rewrite skipn_O, <- tl_skipn.
    destruct (skipn (length rows - N.to_nat 10000) rows) eqn:E; [|reflexivity].
    apply (f_equal (@length _)) in E. rewrite length_skipn in E. simpl in E. lia.
  - replace (length rows + 1 - N.to_nat 10000)%nat with 0%nat by lia.
    replace (length rows - N.to_nat 10000)%nat with 0%nat by lia. reflexivity.
Qed.

Lemma deque_append_length {A} (x : A) (n : nat) (l : list A) :
  (0 < n)%nat -> (length l <= n)%nat ->
  (length (elems (deque_append x (Deque (Some n) l))) <= n)%nat.
Proof.
  intros Hn Hl. unfold deque_append. cbn [elems maxlen].
  rewrite length_app. cbn [length].
  destruct (Nat.ltb_spec n (length l + 1)); [|rewrite length_app; cbn [length]; lia].
  destruct l; cbn [app tl length] in *; [lia|]. rewrite length_app. cbn [length]. lia.
Qed.

Lemma deque_append_forall {A} (P : A -> Prop) (x : A) (m : option nat) (l : list A) :
  P x -> Forall P l -> Forall P (elems (deque_append x (Deque m l))).
Proof.
  intros Hx Hl. unfold deque_append. cbn [elems maxlen].
  assert (Hg : Forall P (l ++ [x])) by (apply Forall_app; auto).
  destruct m as [n|]; cbn [elems]; [|exact Hg].
  destruct (n <? length (l ++ [x]))%nat; [|exact Hg].
  destruct (l ++ [x]); [constructor|]. inversion Hg; assumption.
Qed.

(** What an emission does, field by field. *)
Lemma process_sample_spec (ts : float) (io : csv_write) (self : t) :
  channels (pending_data self) -> channels (calibration_factors self) ->
  exists self' out,
    _process_sample ts io self = (self', out)
    /\ parser self' = parser self
    /\ state_changes self' = state_changes self
    /\ current_state self' = current_state self
    /\ logging_start_time self' = logging_start_time self
    /\ is_logging self' = is_logging self
    /\ sample_interval self' = sample_interval self
    /\ last_sample_time self' = last_sample_time self
    /\ pending_data self' = pending_data self
    /\ calibration_factors self' = calibration_factors self
    /\ current_state_var self' = current_state_var self
    /\ log_text self' = log_text self
    /\ ((data_buffer self' = data_buffer self /\ csv_file self' = csv_file self
         /\ session_started self = false /\ out = Ok tt)
        \/ exists t0 smp,
             logging_start_time self = Some t0
             /\ float_truthy t0 = true
             /\ timestamp smp = ts
             /\ state smp = current_state self
             /\ elapsed_time smp = PrimFloat.sub ts t0
             /\ data_buffer self' = deque_append smp (data_buffer self)
             /\ csv_file self'
                = option_map (fun rows => rows_after io rows smp) (csv_file self)
             /\ out = match csv_file self with
                      | Some _ => csv_ends io
                      | None => Ok tt
                      end).
Proof.
  intros Hp Hf. apply channels_shape in Hp as (a & b & c & Hp).
  apply channels_shape in Hf as (f1 & f2 & f3 & Hf).
  unfold _process_sample, calibrate, session_started. rewrite Hp, Hf.
  destruct (logging_start_time self) as [t0|] eqn:Et.
  2:{ exists self, (Ok tt). rewrite Hp, Hf. repeat split; auto 6. }
  destruct (float_truthy t0) eqn:Etruthy; cbn [negb].
  2:{ exists self, (Ok tt). rewrite Hp, Hf. repeat split; auto 6. }
  destruct a, b, c; cbn; destruct (csv_file self) as [rows|]; try destruct io;
    cbn; eexists _, _; (split; [reflexivity|]); cbn;
    repeat (split; [first [reflexivity|assumption]|]);
    right; eexists t0, _; repeat split; try exact Etruthy; reflexivity.
Qed.

Lemma capacity_positive : (0 < CAPACITY)%nat.
Proof. unfold CAPACITY. lia. Qed.

Lemma sound_init : sound init.
Proof.
  constructor; cbn; try reflexivity; try discriminate; try constructor.
  unfold CAPACITY. lia.
Qed.

(** Soundness looks at ten fields only. *)
Lemma sound_frame (s s' : t) :
  pending_data s' = pending_data s ->
  calibration_factors s' = calibration_factors s ->
  data_buffer s' = data_buffer s ->
  is_logging s' = is_logging s ->
  logging_start_time s' = logging_start_time s ->
  csv_file s' = csv_file s ->
  current_state s' = current_state s ->
  state_changes s' = state_changes s ->
  current_state_var s' = current_state_var s ->
  parser s' = parser s ->
  sound s -> sound s'.
Proof.
  intros E1 E2 E3 E4 E5 E6 E7 E8 E9 E10 [].
  constructor; rewrite ?E1, ?E2, ?E3, ?E4, ?E5, ?E6, ?E7, ?E8, ?E9, ?E10; assumption.
Qed.

Lemma sound_process_sample (ts : float) (io : csv_write) (s : t) :
  sound s -> sound (fst (_process_sample ts io s)).
Proof.
  intros Hs. pose proof Hs as [Hp Hf Hm Hl Hlog Hcsv Hst Hsv Hel Hbuf].
  destruct (process_sample_spec ts io s Hp Hf)
    as (s' & out & -> & E1 & E2 & E3 & E4 & E5 & E6 & E7 & E8 & E9 & E10 & E11 & Hcase).
  cbn [fst].
  destruct Hcase as [(Eb & Ec & _)
                    |(t0 & smp & Et & _ & Hts & Hstate & Helapsed & Eb & Ec & _)].
  - apply (sound_frame s); assumption.
  - destruct (data_buffer s) as [m e] eqn:Ed. cbn in Hm, Hl. subst m.
    constructor.
    + rewrite E8. exact Hp.
    + rewrite E9. exact Hf.
    + rewrite Eb. reflexivity.
    + rewrite Eb. apply deque_append_length; [apply capacity_positive|exact Hl].
    + rewrite E5, E4. exact Hlog.
    + intros rows'. rewrite E5, Ec.
      destruct (csv_file s) as [rows|]; [|discriminate].
      intros _. exact (Hcsv rows eq_refl).
    + rewrite E3, E2. exact Hst.
    + rewrite E10, E3. exact Hsv.
    + rewrite E4, Et, Eb. rewrite Et in Hel. apply deque_append_forall; [|exact Hel].
      rewrite Helapsed, Hts. reflexivity.
    + rewrite E1. exact Hbuf.
Qed.

Lemma sound_after_parse (data : bytes) (s : t) :
  sound s ->
  sound (after_parse
           (DataParser.Parser (fst (run_text (DataParser._buffer (parser s)) (decoded data))))
           (merge_parsed (pending_data s)
              (dict_of (snd (run_text (DataParser._buffer (parser s)) (decoded data)))))
           s).
Proof.
  intros Hs. pose proof Hs as [Hp Hf Hm Hl Hlog Hcsv Hst Hsv Hel Hbuf].
  apply channels_dict_of in Hp as [u Hu].
  constructor; cbn; try assumption.
  - rewrite Hu, merge_parsed_dict_of. apply channels_dict_of. eauto.
  - apply split_lines_last_no_lf.
Qed.

Lemma sound_rx (data : bytes) (now : float) (io : csv_write) (s : t) :
  sound s -> sound (fst (_poll_events_rx data now io s)).
Proof.
  intros Hs. pose proof (sound_after_parse data s Hs) as Hs1.
  unfold _poll_events_rx. rewrite parse_eq.
  set (s1 := after_parse _ _ s) in *.
  destruct (is_logging s1 && _); [|exact Hs1].
  pose proof (sound_process_sample now io s1 Hs1) as Hs2.
  destruct (_process_sample now io s1) as [s2 [[]|e]]; cbn [fst] in *; [|exact Hs2].
  apply (sound_frame s2); try reflexivity. exact Hs2.
Qed.

Lemma sound_start_failed (s : t) : sound s -> sound (_on_start_logging_failed s).
Proof.
  intros [Hp Hf Hm Hl Hlog Hcsv Hst Hsv Hel Hbuf].
  constructor; cbn; try assumption. discriminate.
Qed.

Lemma sound_start (is_connected opened : bool) (now : float) (s : t) :
  sound s -> sound (_on_start_logging is_connected opened now s).
Proof.
  intros Hs. unfold _on_start_logging.
  destruct is_connected, opened; cbn [negb]; try exact Hs;
    [|apply sound_start_failed; exact Hs].
  pose proof Hs as [Hp Hf Hm Hl Hlog Hcsv Hst Hsv Hel Hbuf].
  constructor; cbn; try reflexivity; try assumption; try discriminate.
  - unfold CAPACITY. lia.
  - intros _. exists now. reflexivity.
  - constructor.
Qed.

Lemma sound_stop (s : t) : sound s -> sound (_on_stop_logging s).
Proof.
  intros [Hp Hf Hm Hl Hlog Hcsv Hst Hsv Hel Hbuf].
  constructor; cbn; try assumption; try reflexivity; discriminate.
Qed.

Lemma sound_state_button (st : string) (now1 now2 : float) (s : t) :
  sound s -> exists s', _on_state_button st now1 now2 s = Ok s' /\ sound s'.
Proof.
  intros Hs. pose proof Hs as [Hp Hf Hm Hl Hlog Hcsv Hst Hsv Hel Hbuf].
  unfold _on_state_button. destruct (is_logging s) eqn:Eon; cbn [negb].
  - destruct (Hlog eq_refl) as (t0 & Et). rewrite Et.
    eexists. split; [reflexivity|]. rewrite Et in Hel.
    constructor; cbn; try assumption; try reflexivity.
    + intros _. exists t0. reflexivity.
    + rewrite map_app. cbn [map]. rewrite last_last. reflexivity.
  - eexists. split; [reflexivity|]. apply (sound_frame s); try reflexivity. exact Hs.
Qed.

Lemma sound_store_factor (k : string) (o : option float) (s : t) :
  In k ["ct_clamp"; "hall1"; "hall2"]%string ->
  sound s -> exists s', store_factor k (entry o) s = Ok s' /\ sound s'.
Proof.
  intros Hk Hs. destruct o as [v|]; cbn; [|eauto].
  eexists. split; [reflexivity|].
  pose proof Hs as [Hp Hf Hm Hl Hlog Hcsv Hst Hsv Hel Hbuf].
  constructor; cbn; try assumption.
  apply channels_shape in Hf as (a & b & c & ->).
  cbn [In] in Hk. destruct Hk as [<-|[<-|[<-|[]]]]; reflexivity.
Qed.

Lemma sound_update_calibration (ct h1 h2 : option float) (s : t) :
  sound s ->
  exists s', _update_calibration (entry ct) (entry h1) (entry h2) s = Ok s' /\ sound s'.
Proof.
  intros Hs. unfold _update_calibration.
  destruct (sound_store_factor "ct_clamp" ct s) as (s1 & -> & Hs1); [cbn; auto|exact Hs|].
  cbn [bind].
  destruct (sound_store_factor "hall1" h1 s1) as (s2 & -> & Hs2); [cbn; auto|exact Hs1|].
  cbn [bind].
  apply sound_store_factor; [cbn; auto|exact Hs2].
Qed.

Lemma sound_handle (e : BleWorker.event) (now : float) (io : csv_write) (s : t) :
  sound s -> sound (fst (handle e now io s)).
Proof.
  intros Hs. destruct e; cbn [handle fst]; try exact Hs.
  - apply sound_rx. exact Hs.
  - unfold _poll_events_connected.
    destruct (negb up && is_logging s); [apply sound_stop|]; exact Hs.
  - apply (sound_frame s); try reflexivity. exact Hs.
Qed.

Lemma perform_sound (a : action) (r : program) :
  sound (logger r) -> sound (logger (fst (perform a r))).
Proof.
  intros Hs. destruct a as [e now io|is_connected opened now| |st now1 now2|ct h1 h2]; cbn [perform].
  - destruct (polling r); [|exact Hs].
    pose proof (sound_handle e now io (logger r) Hs) as H.
    destruct (handle e now io (logger r)) as [s [[]|x]]; exact H.
  - apply sound_start. exact Hs.
  - apply sound_stop. exact Hs.
  - destruct (sound_state_button st now1 now2 (logger r) Hs) as (s' & -> & Hs').
    exact Hs'.
  - destruct (sound_update_calibration ct h1 h2 (logger r) Hs) as (s' & -> & Hs').
    exact Hs'.
Qed.

(** *** Pacing *)

Lemma spaced_snoc (iv : float) (l : list DataSample) (x : DataSample) :
  spaced iv l = true ->
  (forall a, last l = Some a ->
             PrimFloat.leb iv (PrimFloat.sub (timestamp x) (timestamp a)) = true) ->
  spaced iv (l ++ [x]) = true.
Proof.
  induction l as [|a l IH]; intros Hl Hx; [reflexivity|].
  destruct l as [|b l].
  - cbn. rewrite (Hx a eq_refl). reflexivity.
  - cbn [spaced app] in *. apply andb_prop in Hl as [Hab Hl].
    rewrite Hab. cbn [andb]. apply IH; [exact Hl|]. intros c Hc. apply Hx. exact Hc.
Qed.

Lemma spaced_tl (iv : float) (l : list DataSample) :
  spaced iv l = true -> spaced iv (tl l) = true.
Proof.
  destruct l as [|a [|b l]]; cbn [tl spaced]; try reflexivity.
  intros H. apply andb_prop in H as [_ H]. exact H.
Qed.

Lemma last_tl {A} (l : list A) (a : A) : last (tl l) = Some a -> last l = Some a.
Proof. destruct l as [|x [|y l]]; cbn; congruence. Qed.

Lemma last_skipn {A} (k : nat) (l : list A) :
  (k < length l)%nat -> last (skipn k l) = last l.
Proof.
  revert l. induction k as [|k IH]; intros [|x l] H; cbn [skipn]; try reflexivity.
  cbn [length] in H. rewrite IH by lia.
  destruct l; [cbn [length] in H; lia|reflexivity].
Qed.

Lemma last_latest {A} (rows : list A) : last (latest rows) = last rows.
Proof.
  unfold latest. destruct rows as [|x rows]; [reflexivity|].
  apply last_skipn. unfold CAPACITY. cbn [length]. lia.
Qed.

Lemma deque_append_spaced (iv : float) (x : DataSample) (d : deque DataSample) :
  spaced iv (elems d) = true ->
  (forall a, last (elems d) = Some a ->
             PrimFloat.leb iv (PrimFloat.sub (timestamp x) (timestamp a)) = true) ->
  spaced iv (elems (deque_append x d)) = true.
Proof.
  intros Hd Hx. pose proof (spaced_snoc iv (elems d) x Hd Hx) as H.
  unfold deque_append. destruct (maxlen d) as [n|]; cbn [elems]; [|exact H].
  destruct (n <? _)%nat; [apply spaced_tl|]; exact H.
Qed.

Lemma deque_append_last {A} (x a : A) (d : deque A) :
  last (elems (deque_append x d)) = Some a -> a = x.
Proof.
  unfold deque_append. destruct (maxlen d) as [n|]; cbn [elems].
  - destruct (n <? _)%nat; intros H; [apply last_tl in H|];
      rewrite last_snoc in H; congruence.
  - rewrite last_snoc. congruence.
Qed.

Lemma paced_started : paced started.
Proof.
  constructor; cbn; try reflexivity; try discriminate.
  split; [reflexivity|discriminate].
Qed.

Lemma paced_frame (s s' : t) (alive : bool) :
  data_buffer s' = data_buffer s ->
  csv_file s' = csv_file s ->
  sample_interval s' = sample_interval s ->
  last_sample_time s' = last_sample_time s ->
  logging_start_time s' = logging_start_time s ->
  paced (Program s alive) -> paced (Program s' alive).
Proof.
  intros E1 E2 E3 E4 E5 [Hh Hhl Hrows Hempty]. cbn [logger polling] in *.
  constructor; unfold session_started in *; cbn [logger polling];
    rewrite ?E1, ?E2, ?E3, ?E4, ?E5; assumption.
Qed.

(** Closing the file, or no file being open, leaves nothing to say of the
    rows. *)
Lemma paced_closed (s s' : t) (alive : bool) :
  data_buffer s' = data_buffer s ->
  csv_file s' = None ->
  sample_interval s' = sample_interval s ->
  last_sample_time s' = last_sample_time s ->
  logging_start_time s' = logging_start_time s ->
  paced (Program s alive) -> paced (Program s' alive).
Proof.
  intros E1 E2 E3 E4 E5 [Hh Hhl Hrows Hempty]. cbn [logger polling] in *.
  constructor; unfold session_started in *; cbn [logger polling];
    rewrite ?E1, ?E2, ?E3, ?E4, ?E5; try assumption; try discriminate.
  intros Hoff. split; [exact (proj1 (Hempty Hoff))|discriminate].
Qed.

Lemma paced_rx (data : bytes) (now : float) (io : csv_write) (s : t) :
  sound s -> paced (Program s true) ->
  paced (Program (fst (_poll_events_rx data now io s))
                 (match snd (_poll_events_rx data now io s) with
                  | Ok _ => true
                  | Raise _ => false
                  end)).
Proof.
  intros Hs Hpaced. pose proof (sound_after_parse data s Hs) as Hs1.
  unfold _poll_events_rx. rewrite parse_eq.
  set (s1 := after_parse _ _ s) in *.
  assert (Hp1 : paced (Program s1 true))
    by (apply (paced_frame s); [reflexivity..|exact Hpaced]).
  destruct (is_logging s1 && _) eqn:Egate; [|exact Hp1].
  apply andb_prop in Egate as [_ Hgap].
  pose proof Hp1 as [Hh Hhl Hrows Hempty]. cbn [logger polling] in *.
  specialize (Hhl eq_refl).
  pose proof Hs1 as [Hp Hf Hm _ _ _ _ _ _ _].
  destruct (process_sample_spec now io s1 Hp Hf)
    as (s2 & out & -> & _ & _ & _ & Estart & _ & Eiv & _ & _ & _ & _ & _ & Hcase).
  destruct Hcase as [(Eb & Ec & Hoff & ->)
                    |(t0 & smp & Et & Htruthy & Hts & _ & _ & Eb & Ec & ->)].
  - cbn [fst snd]. destruct (Hempty Hoff) as [Hnil Hnone].
    constructor; unfold session_started; cbn; rewrite ?Eb, ?Ec, ?Eiv, ?Estart.
    + exact Hh.
    + intros _. rewrite Hnil. discriminate.
    + intros rows Hcsv. rewrite (Hnone rows Hcsv), Hnil.
      split; [reflexivity|left; reflexivity].
    + intros _. exact (Hempty Hoff).
  - assert (Hsp : spaced (sample_interval s1) (elems (deque_append smp (data_buffer s1)))
                  = true).
    { apply deque_append_spaced; [exact Hh|].
      intros a Ha. rewrite Hts, <- (Hhl a Ha). exact Hgap. }
    assert (Hrow : forall rows, csv_file s1 = Some rows ->
                     spaced (sample_interval s1) (rows ++ [smp]) = true
                     /\ elems (deque_append smp (data_buffer s1)) = latest (rows ++ [smp])).
    { intros rows Hcsv. destruct (Hrows rows Hcsv) as [Hr [Hhist|[Habs _]]];
        [|discriminate Habs].
      split.
      - apply spaced_snoc; [exact Hr|]. intros a Ha.
        rewrite <- last_latest, <- Hhist in Ha. rewrite Hts, <- (Hhl a Ha). exact Hgap.
      - destruct (data_buffer s1) as [m e]. cbn [maxlen elems] in *. subst m.
        rewrite Hhist. apply latest_snoc. }
    destruct (csv_file s1) as [rows|] eqn:Ecsv.
    + destruct (Hrow rows eq_refl) as [Hr' Hh']. destruct (Hrows rows eq_refl) as [Hr _].
      destruct io as [|e|e]; cbn [csv_ends rows_after option_map fst snd] in *.
      * constructor; unfold session_started; cbn; rewrite ?Eb, ?Ec, ?Eiv, ?Estart.
        -- exact Hsp.
        -- intros _ a Ha. apply deque_append_last in Ha. subst a. symmetry. exact Hts.
        -- intros rows' [= <-]. split; [exact Hr'|left; exact Hh'].
        -- rewrite Et, Htruthy. discriminate.
      * constructor; unfold session_started; cbn; rewrite ?Eb, ?Ec, ?Eiv, ?Estart.
        -- exact Hsp.
        -- discriminate.
        -- intros rows' [= <-]. split; [exact Hr|]. right. split; [reflexivity|].
           exists smp. exact Hh'.
        -- rewrite Et, Htruthy. discriminate.
      * constructor; unfold session_started; cbn; rewrite ?Eb, ?Ec, ?Eiv, ?Estart.
        -- exact Hsp.
        -- discriminate.
        -- intros rows' [= <-]. split; [exact Hr'|left; exact Hh'].
        -- rewrite Et, Htruthy. discriminate.
    + cbn [option_map fst snd] in *.
      constructor; unfold session_started; cbn; rewrite ?Eb, ?Ec, ?Eiv, ?Estart.
      * exact Hsp.
      * intros _ a Ha. apply deque_append_last in Ha. subst a. symmetry. exact Hts.
      * discriminate.
      * rewrite Et, Htruthy. discriminate.
Qed.

Lemma paced_handle (e : BleWorker.event) (now : float) (io : csv_write) (s : t) :
  sound s -> paced (Program s true) ->
  paced (Program (fst (handle e now io s))
                 (match snd (handle e now io s) with
                  | Ok _ => true
                  | Raise _ => false
                  end)).
Proof.
  intros Hs Hpaced. destruct e; cbn [handle fst snd]; try exact Hpaced.
  - apply paced_rx; assumption.
  - unfold _poll_events_connected.
    destruct (negb up && is_logging s); [|exact Hpaced].
    apply (paced_closed s); [reflexivity..|exact Hpaced].
  - apply (paced_frame s); [reflexivity..|exact Hpaced].
Qed.

Lemma paced_store_factor (k : string) (o : option float) (s s' : t) (alive : bool) :
  paced (Program s alive) -> store_factor k (entry o) s = Ok s' ->
  paced (Program s' alive).
Proof.
  intros Hpaced. destruct o as [v|]; cbn; intros [= <-]; [|exact Hpaced].
  apply (paced_frame s); [reflexivity..|exact Hpaced].
Qed.

Lemma paced_perform (a : action) (r : program) :
  sound (logger r) -> paced r -> paced (fst (perform a r)).
Proof.
  intros Hs Hpaced. destruct r as [s alive]. cbn [logger polling] in *.
  destruct a as [e now io|is_connected opened now| |st now1 now2|ct h1 h2]; cbn [perform logger polling].
  - destruct alive; [|exact Hpaced].
    pose proof (paced_handle e now io s Hs Hpaced) as H.
    destruct (handle e now io s) as [s' [[]|x]]; exact H.
  - cbn [fst]. unfold _on_start_logging.
    destruct is_connected, opened; cbn [negb]; try exact Hpaced.
    + pose proof Hpaced as [Hh Hhl Hrows Hempty].
      constructor; cbn; try reflexivity; try discriminate.
      * intros rows [= <-]. split; [reflexivity|left; reflexivity].
      * intros _. split; [reflexivity|]. intros rows [= <-]. reflexivity.
    + apply (paced_closed s); [reflexivity..|exact Hpaced].
  - cbn [fst]. apply (paced_closed s); [reflexivity..|exact Hpaced].
  - destruct (sound_state_button st now1 now2 s Hs) as (s' & E & _).
    rewrite E. cbn [call fst polling]. revert E. unfold _on_state_button.
    destruct (is_logging s); cbn [negb].
    + destruct (logging_start_time s) eqn:Et; [|discriminate]. intros [= <-].
      apply (paced_frame s); [reflexivity..|cbn; congruence|exact Hpaced].
    + intros [= <-]. apply (paced_frame s); [reflexivity..|exact Hpaced].
  - destruct (sound_update_calibration ct h1 h2 s Hs) as (s' & E & _).
    rewrite E. cbn [call fst polling]. revert E. unfold _update_calibration.
    destruct (store_factor "ct_clamp" (entry ct) s) as [s1|] eqn:E1; [|discriminate].
    cbn [bind].
    destruct (store_factor "hall1" (entry h1) s1) as [s2|] eqn:E2; [|discriminate].
    cbn [bind]. intros E3.
    eapply paced_store_factor; [|exact E3].
    eapply paced_store_factor; [|exact E2].
    eapply paced_store_factor; [|exact E1]. exact Hpaced.
Qed.

(** *** One [rx] event *)

Lemma rx_step (data : bytes) (now : float) (io : csv_write) (s : t) :
  channels (pending_data s) -> channels (calibration_factors s) ->
  exists s' out,
    _poll_events_rx data now io s = (s', out)
    /\ channels (pending_data s')
    /\ calibration_factors s' = calibration_factors s
    /\ current_state s' = current_state s
    /\ is_logging s' = is_logging s
    /\ logging_start_time s' = logging_start_time s
    /\ sample_interval s' = sample_interval s
    /\ ((data_buffer s' = data_buffer s /\ csv_file s' = csv_file s /\ out = Ok tt)
        \/ exists smp,
             is_logging s = true
             /\ timestamp smp = now
             /\ state smp = current_state s
             /\ data_buffer s' = deque_append smp (data_buffer s)
             /\ csv_file s'
                = option_map (fun rows => rows_after io rows smp) (csv_file s)
             /\ out = match csv_file s with
                      | Some _ => csv_ends io
                      | None => Ok tt
                      end).
Proof.
  intros Hp Hf. unfold _poll_events_rx. rewrite parse_eq.
  set (v := snd (run_text _ _)). set (p := DataParser.Parser _).
  set (s1 := after_parse p _ s).
  assert (Hp1 : channels (pending_data s1)).
  { apply channels_dict_of in Hp as [u Hu]. cbn. rewrite Hu, merge_parsed_dict_of.
    apply channels_dict_of. eauto. }
  destruct (is_logging s1 && _) eqn:Egate.
  2:{ exists s1, (Ok tt). repeat split; auto. }
  apply andb_prop in Egate as [Hon _].
  destruct (process_sample_spec now io s1 Hp1 Hf)
    as (s2 & out & -> & _ & _ & Est & Estart & Elog & Eiv & _ & Epend & Efac & _ & _
        & Hcase).
  destruct Hcase as [(Eb & Ec & _ & ->)
                    |(t0 & smp & _ & _ & Hts & Hstate & _ & Eb & Ec & ->)].
  - eexists _, _. split; [reflexivity|]. cbn.
    rewrite Epend, Efac, Est, Estart, Elog, Eiv.
    repeat (split; [first [reflexivity|assumption]|]). left. auto.
  - assert (Hout : exists s' out,
               match csv_file s1 with
               | Some _ => csv_ends io
               | None => Ok tt
               end = out
               /\ (let (s3, r) := (s2, out) in
                   match r with
                   | Ok _ => (with_last_sample_time now s3, Ok tt)
                   | Raise e => (s3, Raise e)
                   end) = (s', out)
               /\ pending_data s' = pending_data s2
               /\ calibration_factors s' = calibration_factors s2
               /\ current_state s' = current_state s2
               /\ is_logging s' = is_logging s2
               /\ logging_start_time s' = logging_start_time s2
               /\ sample_interval s' = sample_interval s2
               /\ data_buffer s' = data_buffer s2
               /\ csv_file s' = csv_file s2).
    { destruct (match csv_file s1 with Some _ => csv_ends io | None => Ok tt end)
        as [[]|e]; eexists _, _; repeat split. }
    destruct Hout as (s' & out & Eout & Erun & F1 & F2 & F3 & F4 & F5 & F6 & F7 & F8).
    exists s', out. rewrite Eout. cbn [fst snd] in Erun.
    split.
    { rewrite <- Erun. destruct out as [[]|e]; reflexivity. }
    rewrite F1, F2, F3, F4, F5, F6, F7, F8, Epend, Efac, Est, Estart, Elog, Eiv.
    repeat (split; [first [reflexivity|assumption]|]).
    right. exists smp. repeat split; try assumption. symmetry. exact Eout.
Qed.


Lemma interval_perform (a : action) (r : program) :
  sound (logger r) ->
  sample_interval (logger (fst (perform a r))) = sample_interval (logger r).
Proof.
  intros Hs. pose proof Hs as [Hp Hf _ _ _ _ _ _ _ _].
  destruct a as [[found|data|msg|up|payload] now io|is_connected opened now| |st now1 now2|ct h1 h2]; cbn [perform handle].
  - destruct (polling r); reflexivity.
  - destruct (polling r); [|reflexivity].
    destruct (rx_step data now io (logger r) Hp Hf)
      as (s1 & out & -> & _ & _ & _ & _ & _ & Eiv & _).
    destruct out as [[]|x]; exact Eiv.
  - destruct (polling r); reflexivity.
  - destruct (polling r); [|reflexivity]. cbn. unfold _poll_events_connected.
    destruct (negb up && is_logging (logger r)); reflexivity.
  - destruct (polling r); reflexivity.
  - cbn. destruct is_connected, opened; reflexivity.
  - reflexivity.
  - destruct (sound_state_button st now1 now2 (logger r) Hs) as (s' & E & _).
    rewrite E. cbn [call fst logger]. revert E. unfold _on_state_button.
    destruct (is_logging (logger r)); cbn [negb].
    + destruct (logging_start_time (logger r)); [|discriminate]. intros [= <-]. reflexivity.
    + intros [= <-]. reflexivity.
  - destruct ct, h1, h2; reflexivity.
Qed.

Lemma perform_all_snoc (a : action) (actions : list action) (r : program) :
  perform_all (actions ++ [a]) r = fst (perform a (perform_all actions r)).
Proof. unfold perform_all. rewrite fold_left_app. reflexivity. Qed.

(** Every state the application reaches from its initial state by a run
    of actions, whether or not some of them raised, is sound and paced, and
    its sampling interval is the initial one. *)
Lemma reachable (actions : list action) :
  sound (logger (perform_all actions started))
  /\ paced (perform_all actions started)
  /\ sample_interval (logger (perform_all actions started)) = sample_interval init.
Proof.
  induction actions as [|a actions IH] using rev_ind.
  - split; [exact sound_init|]. split; [exact paced_started|reflexivity].
  - rewrite perform_all_snoc. destruct IH as (Hs & Hp & Eiv).
    split; [apply perform_sound; exact Hs|].
    split; [apply paced_perform; assumption|].
    rewrite interval_perform by exact Hs. exact Eiv.
Qed.


End Soundness.

Section LoggerExtras.
Import LaundryIQLogger.


(** X15: the history never holds more than its bound of 10,000 samples,
    and the bound itself is never changed, not even by the clearing at the
    start of a session. *)
Theorem history_never_exceeds_bound (actions : list action) :
  maxlen (data_buffer (logger (perform_all actions started))) = Some CAPACITY
  /\ N.of_nat (length (elems (data_buffer (logger (perform_all actions started)))))
     <= 10000.
Proof.
  destruct (reachable actions) as ([_ _ Hm Hl _ _ _ _ _ _] & _).
  split; [exact Hm|]. unfold CAPACITY in Hl. lia.
Qed.


(** X17: the current state is always the state of the last recorded state
    change of the session, or Off when none was recorded, and the state
    shown in the window is the current state. *)
Theorem current_state_is_last_change (actions : list action) :
  current_state (logger (perform_all actions started))
  = List.last (map sc_state (state_changes (logger (perform_all actions started))))
              "Off"%string
  /\ current_state_var (logger (perform_all actions started))
     = current_state (logger (perform_all actions started)).
Proof.
  destruct (reachable actions) as ([_ _ _ _ _ _ Hst Hsv _ _] & _). auto.
Qed.

(** X18: every sample of the history carries as elapsed time its time
    stamp minus the start time of the session the logger remembers: the
    history never mixes samples of two sessions. *)
Theorem elapsed_counts_from_session_start (actions : list action) :
  forall smp,
    In smp (elems (data_buffer (logger (perform_all actions started)))) ->
    exists t0,
      logging_start_time (logger (perform_all actions started)) = Some t0
      /\ elapsed_time smp = PrimFloat.sub (timestamp smp) t0.
Proof.
  destruct (reachable actions) as ([_ _ _ _ _ _ _ _ Hel _] & _).
  intros smp Hin.
  destruct (logging_start_time _) as [t0|].
  - exists t0. split; [reflexivity|].
    rewrite List.Forall_forall in Hel. exact (Hel smp Hin).
  - rewrite Hel in Hin. destruct Hin.
Qed.

Lemma elapsed_counts_from_session_start_witness :
  exists t0,
    logging_start_time (logger (perform_all one_sample_run started)) = Some t0
    /\ elapsed_time (sample_of fresh_session 100.25 100 (Some 1.5%float, None, None) 1 1 1)
       = PrimFloat.sub
           (timestamp (sample_of fresh_session 100.25 100 (Some 1.5%float, None, None) 1 1 1))
           t0.
Proof.
  apply (elapsed_counts_from_session_start one_sample_run).
  vm_compute. left. reflexivity.
Defined.

(** X19: as long as the sampling rate is left at its initial value,
    adjacent samples of the history, and adjacent rows of the open file,
    were taken at clock readings at least one sampling interval apart (in
    the floating-point comparison the [rx] branch makes), also when a row
    could not be written: the exception ends the polling before
    [last_sample_time] is brought up to date, and no sample follows. *)
Theorem samples_at_least_interval_apart (actions : list action) :
  spaced (sample_interval init)
         (elems (data_buffer (logger (perform_all actions started)))) = true
  /\ forall rows,
       csv_file (logger (perform_all actions started)) = Some rows ->
       spaced (sample_interval init) rows = true.
Proof.
  destruct (reachable actions) as (_ & [Hh _ Hrows _] & <-).
  split; [exact Hh|]. intros rows Hcsv. exact (proj1 (Hrows rows Hcsv)).
Qed.

(** X20: the state is carried forward until the next change: over a run
    of [rx] events with no state button pressed in between, every row
    written to the open file carries the state that was current at the
    beginning of the run, and the current state is unchanged at the end;
    the run returns normally when every row it writes is written. *)
Theorem samples_carry_current_state
        (chunks : list (bytes * float * csv_write)) (self : t) (rows : list DataSample) :
  channels (pending_data self) ->
  channels (calibration_factors self) ->
  csv_file self = Some rows ->
  exists new,
    csv_file (fst (rx_all chunks self)) = Some (rows ++ new)
    /\ Forall (fun smp => state smp = current_state self) new
    /\ current_state (fst (rx_all chunks self)) = current_state self
    /\ (Forall (fun c => snd c = RowWritten) chunks ->
        snd (rx_all chunks self) = Ok tt).
Proof.
  revert self rows.
  induction chunks as [|[[data now] io] chunks IH]; intros self rows Hp Hf Hcsv.
  - exists []. rewrite List.app_nil_r. repeat split; auto.
  - cbn [rx_all].
    destruct (rx_step data now io self Hp Hf)
      as (s1 & out & -> & Hp1 & Ef1 & Est & _ & _ & _ & Hcase).
    rewrite <- Ef1 in Hf.
    destruct Hcase as [(_ & Ec & ->)|(smp & _ & _ & Hstate & _ & Ec & ->)];
      rewrite Hcsv in Ec; rewrite ?Hcsv.
    + destruct (IH s1 rows Hp1 Hf Ec) as (new & Hcsv' & Hall & Est' & Hok).
      exists new. rewrite <- Est. repeat split; try assumption.
      intros Hw. apply Hok. inversion Hw; assumption.
    + cbn [option_map] in Ec. destruct io as [|e|e]; cbn [csv_ends rows_after] in *.
      * destruct (IH s1 (rows ++ [smp]) Hp1 Hf Ec) as (new & Hcsv' & Hall & Est' & Hok).
        exists (smp :: new). rewrite <- List.app_assoc in Hcsv'. rewrite <- Est.
        repeat split; try assumption.
        -- constructor; [rewrite Est; exact Hstate|exact Hall].
        -- intros Hw. apply Hok. inversion Hw; assumption.
      * exists []. cbn [fst snd]. rewrite List.app_nil_r.
        repeat split; try assumption; [constructor|].
        intros Hw. inversion Hw as [|? ? Hio _]. discriminate Hio.
      * exists [smp]. cbn [fst snd].
        repeat split; try assumption; [repeat constructor; exact Hstate|].
        intros Hw. inversion Hw as [|? ? Hio _]. discriminate Hio.
Qed.

Lemma samples_carry_current_state_witness :
  channels (pending_data first_sample_taken)
  /\ channels (calibration_factors first_sample_taken)
  /\ exists new,
       csv_file (fst (rx_all [(line_bytes "HALL1_A:2", 100.5%float, RowWritten)]
                             first_sample_taken))
       = Some ([sample_of first_sample_taken 100.25 100 (Some 1.5%float, None, None) 1 1 1]
               ++ new)
       /\ Forall (fun smp => state smp = current_state first_sample_taken) new
       /\ current_state (fst (rx_all [(line_bytes "HALL1_A:2", 100.5%float, RowWritten)]
                                     first_sample_taken))
          = current_state first_sample_taken
       /\ (Forall (fun c => snd c = RowWritten)
                  [(line_bytes "HALL1_A:2", 100.5%float, RowWritten)] ->
           snd (rx_all [(line_bytes "HALL1_A:2", 100.5%float, RowWritten)]
                       first_sample_taken) = Ok tt).
Proof.
  split; [reflexivity|]. split; [reflexivity|].
  apply (samples_carry_current_state
           [(line_bytes "HALL1_A:2", 100.5%float, RowWritten)] first_sample_taken);
    vm_compute; reflexivity.
Defined.

(** X21: the three calibration entries are handled independently of one
    another: an entry that is a number replaces the factor of its channel,
    an entry that is not a number leaves that factor as it was, and neither
    keeps the entries after it from being applied. *)
Theorem calibration_entries_independent (ct h1 h2 : option float) (self : t) :
  channels (calibration_factors self) ->
  exists self',
    _update_calibration (entry ct) (entry h1) (entry h2) self = Ok self'
    /\ channels (calibration_factors self')
    /\ getitem "ct_clamp" (calibration_factors self')
       = match ct with
         | Some v => Ok v
         | None => getitem "ct_clamp" (calibration_factors self)
         end
    /\ getitem "hall1" (calibration_factors self')
       = match h1 with
         | Some v => Ok v
         | None => getitem "hall1" (calibration_factors self)
         end
    /\ getitem "hall2" (calibration_factors self')
       = match h2 with
         | Some v => Ok v
         | None => getitem "hall2" (calibration_factors self)
         end.
Proof.
  intros Hf. apply channels_shape in Hf as (a & b & c & Hf).
  unfold _update_calibration.
  destruct ct, h1, h2; cbn; rewrite Hf; eexists; (split; [reflexivity|]); cbn;
    rewrite ?Hf; repeat split; reflexivity.
Qed.

Lemma calibration_entries_independent_witness :
  channels (calibration_factors init)
  /\ exists self',
       _update_calibration (entry None) (entry (Some 2%float)) (entry None) init = Ok self'
       /\ channels (calibration_factors self')
       /\ getitem "ct_clamp" (calibration_factors self')
          = getitem "ct_clamp" (calibration_factors init)
       /\ getitem "hall1" (calibration_factors self') = Ok 2%float
       /\ getitem "hall2" (calibration_factors self')
          = getitem "hall2" (calibration_factors init).
Proof.
  split; [reflexivity|].
  apply (calibration_entries_independent None (Some 2%float) None init). reflexivity.
Defined.


End LoggerExtras.

(** A row that cannot be written: the session has started at 100, the
    line arrives when the clock reads 1e12, and [datetime.fromtimestamp]
    raises [ValueError].  The sample is in the history and not in the file,
    [last_sample_time] is as it was, and the polling has ended: the event
    that follows is not handled. *)
Example row_failure_ends_polling :
  let run :=
    [ StartLogging true true 100%float;
      Event (BleWorker.rx (line_bytes "CT_A:1.5")) 1e12%float
            (LaundryIQLogger.RowRaises ValueError) ] in
  snd (perform (Event (BleWorker.rx (line_bytes "CT_A:1.5")) 1e12%float
                      (LaundryIQLogger.RowRaises ValueError))
               (perform_all [StartLogging true true 100%float] started))
  = Raise ValueError
  /\ map LaundryIQLogger.ct_clamp
         (elems (LaundryIQLogger.data_buffer (logger (perform_all run started))))
     = [Some 1.5%float]
  /\ LaundryIQLogger.csv_file (logger (perform_all run started)) = Some []
  /\ LaundryIQLogger.last_sample_time (logger (perform_all run started)) = 0%float
  /\ LaundryIQLogger.is_logging (logger (perform_all run started)) = true
  /\ polling (perform_all run started) = false
  /\ perform_all (run ++ [Event (BleWorker.connected false) 1e12%float
                                LaundryIQLogger.RowWritten]) started
     = perform_all run started.
Proof. repeat split; vm_compute; reflexivity. Qed.
